(** * Solana Ghost-Code Detective: risk scoring, authority tracking,
      graph filtering and seed recovery

    A shallow embedding of the decision logic of the scanner:

    - [GhostDetector]    (src/analysis/ghost-detector.ts)
    - [AuthorityTracker] (src/analysis/authority-tracker.ts)
    - [GraphBuilder]     (visualization/graph-builder.ts)
    - [PDADetector]      (src/scanner/pda-detector.ts)
    - [ReportGenerator]  (visualization/report-generator.ts, the
                          authority section of [generateMarkdown])

    Numbers.  A JavaScript [number] is an IEEE-754 binary64 value.
    Lamports, slots, depths and node caps are integers in the program and
    are modelled by [Z].  Weights, thresholds and scores are fractional;
    the scorer is written once over an interface [JsNumber] and
    instantiated twice: at [Q] (exact arithmetic, used for the general
    theorems) and at Rocq's primitive binary64 floats (used to replay the
    concrete scenarios bit for bit). *)

From Stdlib Require Import ZArith QArith Qminmax Qabs Floats Lia Lqa.
From Stdlib Require Import Sorting.Permutation Sorting.Sorted.
From stdpp Require Import base decidable option list sets gmap strings pretty sorting.

Set Warnings "-inexact-float".

(** ** Numbers *)

(** The operations on [number] that the scorer uses. *)
Class JsNumber (num : Type) := {
  of_Z : Z → num;                 (* an integer-valued number *)
  nadd : num → num → num;         (* a + b *)
  nmul : num → num → num;         (* a * b *)
  ndiv : num → num → num;         (* a / b *)
  nmin : num → num → num;         (* Math.min(a, b) *)
  ngeb : num → num → bool;        (* a >= b *)
  nfalsy : num → bool;            (* !a  (0 and NaN are falsy) *)
}.

(** Exact rationals. *)
#[export] Instance Q_JsNumber : JsNumber Q := {|
  of_Z := inject_Z;
  nadd := Qplus;
  nmul := Qmult;
  ndiv := Qdiv;
  nmin := Qmin;
  ngeb := fun a b => Qle_bool b a;
  nfalsy := fun a => Qeq_bool a 0;
|}.

(** binary64.  [float_of_Z] is exact for integers below 2^53 in absolute
    value (every lamport amount and slot of interest). *)
Definition float_of_Z (z : Z) : float :=
  match z with
  | Z0 => PrimFloat.zero
  | Zpos _ => PrimFloat.of_uint63 (Uint63.of_Z z)
  | Zneg _ => PrimFloat.opp (PrimFloat.of_uint63 (Uint63.of_Z (Z.opp z)))
  end.

Definition float_is_nan (a : float) : bool := negb (PrimFloat.eqb a a).

(** [Math.min]: NaN if either argument is NaN, and -0 is below +0. *)
Definition float_min (a b : float) : float :=
  if float_is_nan a || float_is_nan b then PrimFloat.nan
  else if PrimFloat.ltb a b then a
  else if PrimFloat.ltb b a then b
  else match PrimFloat.classify a with NZero => a | _ => b end.

#[export] Instance float_JsNumber : JsNumber float := {|
  of_Z := float_of_Z;
  nadd := PrimFloat.add;
  nmul := PrimFloat.mul;
  ndiv := PrimFloat.div;
  nmin := float_min;
  ngeb := fun a b => PrimFloat.leb b a;
  nfalsy := fun a => float_is_nan a || PrimFloat.eqb a PrimFloat.zero;
|}.

#[export] Instance Qeq_decision : RelDecision Qeq := Qeq_dec.

(** ** Types (scanner/types.ts) *)

(** [PDAccountInfo & { lastWriteSlot?: number }].  Optional fields are
    [option]s; [data] is the raw account data. *)
Record PDAccountInfo := {
  pubkey : string;
  owner : string;
  lamports : Z;
  data : list Byte.byte;
  executable : bool;
  rentEpoch : Z;
  lastWriteSlot : option Z;
  isPDA : bool;
  seeds : option (list string);
  bump : option Z;
}.

Inductive RiskLevel := Low | Medium | High | Critical.

Inductive IndicatorType :=
  | Inactivity | AuthorityMismatch | OrphanedPda | RentRecoverable | LegacyAuthority.

#[export] Instance RiskLevel_eq_dec : EqDecision RiskLevel.
Proof. solve_decision. Defined.

#[export] Instance IndicatorType_eq_dec : EqDecision IndicatorType.
Proof. solve_decision. Defined.

(** The [reason] of an indicator is a fixed sentence or a template filled
    with numbers; the model keeps the template and its arguments. *)
Inductive Reason (num : Type) :=
  | NoWriteActivityDetected
      (* 'No write activity detected in recent history' *)
  | NoWriteActivityFor (inactiveSince : Z)
      (* `No write activity for ${inactiveSince} slots (~${days} days)` *)
  | DerivationPathUnknown
      (* 'PDA detected but derivation path unknown - potentially orphaned' *)
  | PotentiallyRecoverable (recoverableSOL : num).
      (* `${recoverableSOL.toFixed(4)} SOL potentially recoverable` *)
Arguments NoWriteActivityDetected {num}.
Arguments NoWriteActivityFor {num} _.
Arguments DerivationPathUnknown {num}.
Arguments PotentiallyRecoverable {num} _.

Record RiskIndicator (num : Type) := {
  type : IndicatorType;
  reason : Reason num;
  weight : num;
}.
Arguments type {num} _.
Arguments reason {num} _.
Arguments weight {num} _.

Record AccountRiskProfile (num : Type) := {
  profile_pubkey : string;
  riskLevel : RiskLevel;
  confidenceScore : num;
  indicators : list (RiskIndicator num);
  estimatedRecoverableSOL : num;
}.
Arguments profile_pubkey {num} _.
Arguments riskLevel {num} _.
Arguments confidenceScore {num} _.
Arguments indicators {num} _.
Arguments estimatedRecoverableSOL {num} _.

(** ** GhostDetector (src/analysis/ghost-detector.ts) *)

Record RiskScoringWeights (num : Type) := {
  inactivity : num;
  authorityMismatch : num;
  orphanedPda : num;
  rentRecoverable : num;
}.
Arguments inactivity {num} _.
Arguments authorityMismatch {num} _.
Arguments orphanedPda {num} _.
Arguments rentRecoverable {num} _.

Record RiskThresholds (num : Type) := {
  low : num;
  medium : num;
  high : num;
  critical : num;
}.
Arguments low {num} _.
Arguments medium {num} _.
Arguments high {num} _.
Arguments critical {num} _.

(** The fields of a [GhostDetector] object. *)
Record GhostDetector (num : Type) := {
  currentSlot : Z;
  inactiveSlotThreshold : Z;
  weights : RiskScoringWeights num;
  thresholds : RiskThresholds num;
}.
Arguments currentSlot {num} _.
Arguments inactiveSlotThreshold {num} _.
Arguments weights {num} _.
Arguments thresholds {num} _.

Section GhostDetector.
Context {num : Type} `{JsNumber num}.

(** [!account.lastWriteSlot]: true when the field is absent, and also
    when it holds the number 0. *)
Definition lastWriteSlot_falsy (account : PDAccountInfo) : bool :=
  match lastWriteSlot account with
  | None => true
  | Some s => Z.eqb s 0
  end.

Definition checkInactivity (this : GhostDetector num) (account : PDAccountInfo)
  : option (RiskIndicator num) :=
  if lastWriteSlot_falsy account then
    (* No activity found - maximum inactivity risk *)
    Some {| type := Inactivity; reason := NoWriteActivityDetected;
            weight := nmul (inactivity (weights this)) (of_Z 100) |}
  else
    let inactiveSince := (currentSlot this - default 0%Z (lastWriteSlot account))%Z in
    if Z.gtb inactiveSince (inactiveSlotThreshold this) then
      Some {| type := Inactivity; reason := NoWriteActivityFor inactiveSince;
              weight := nmul (inactivity (weights this)) (of_Z 100) |}
    else None.

(** [!account.seeds || account.seeds.length === 0] *)
Definition seeds_missing (account : PDAccountInfo) : bool :=
  match seeds account with
  | None => true
  | Some l => Nat.eqb (length l) 0
  end.

Definition checkOrphanedPDA (this : GhostDetector num) (account : PDAccountInfo)
  : option (RiskIndicator num) :=
  if negb (isPDA account) then None
  else if seeds_missing account then
    Some {| type := OrphanedPda; reason := DerivationPathUnknown;
            weight := nmul (orphanedPda (weights this)) (of_Z 100) |}
  else None.

Definition checkRentRecoverable (this : GhostDetector num) (account : PDAccountInfo)
    (minRentExemptBalance : Z) : option (RiskIndicator num) :=
  let recoverableAmount := (lamports account - minRentExemptBalance)%Z in
  if Z.gtb recoverableAmount 0 then
    let recoverableSOL := ndiv (of_Z recoverableAmount) (of_Z 1000000000) in
    Some {| type := RentRecoverable; reason := PotentiallyRecoverable recoverableSOL;
            weight := nmul (rentRecoverable (weights this))
                           (nmin (of_Z 100) (nmul recoverableSOL (of_Z 10))) |}
  else None.

Definition determineRiskLevel (this : GhostDetector num) (confidenceScore : num)
  : RiskLevel :=
  if ngeb confidenceScore (critical (thresholds this)) then Critical
  else if ngeb confidenceScore (high (thresholds this)) then High
  else if ngeb confidenceScore (medium (thresholds this)) then Medium
  else Low.

Definition calculateRecoverableSOL (account : PDAccountInfo)
    (minRentExemptBalance : Z) (riskLevel : RiskLevel) : num :=
  match riskLevel with
  | High | Critical =>
      let recoverableAmount := Z.max 0 (lamports account - minRentExemptBalance) in
      ndiv (of_Z recoverableAmount) (of_Z 1000000000)
  | _ => of_Z 0
  end.

(** One step of [generateRiskProfile]: when a check produced an
    indicator, push it and add its weight to the running total. *)
Definition pushIndicator (st : list (RiskIndicator num) * num)
    (ind : option (RiskIndicator num)) : list (RiskIndicator num) * num :=
  match ind with
  | Some i => (st.1 ++ [i], nadd st.2 (weight i))
  | None => st
  end.

Definition generateRiskProfile (this : GhostDetector num) (account : PDAccountInfo)
    (minRentExemptBalance : Z) : AccountRiskProfile num :=
  let st0 := ([], of_Z 0) in
  let st1 := pushIndicator st0 (checkInactivity this account) in
  let st2 := pushIndicator st1 (checkOrphanedPDA this account) in
  let st3 := pushIndicator st2 (checkRentRecoverable this account minRentExemptBalance) in
  let confidenceScore := nmin (of_Z 100) st3.2 in
  let riskLevel := determineRiskLevel this confidenceScore in
  let estimatedRecoverableSOL :=
    calculateRecoverableSOL account minRentExemptBalance riskLevel in
  {| profile_pubkey := pubkey account;
     riskLevel := riskLevel;
     confidenceScore := confidenceScore;
     indicators := st3.1;
     estimatedRecoverableSOL := estimatedRecoverableSOL |}.

Definition analyzeAccounts (this : GhostDetector num) (accounts : list PDAccountInfo)
    (minRentExemptBalance : Z) : list (AccountRiskProfile num) :=
  map (fun account => generateRiskProfile this account minRentExemptBalance) accounts.
End GhostDetector.

(** The value returned by [GhostDetector.generateSummary]. *)
Record Summary (num : Type) := {
  totalAccounts : nat;
  activeAccounts : nat;
  dormantAccounts : nat;
  highRiskAccounts : nat;
  totalRecoverableSOL : num;
}.
Arguments totalAccounts {num} _.
Arguments activeAccounts {num} _.
Arguments dormantAccounts {num} _.
Arguments highRiskAccounts {num} _.
Arguments totalRecoverableSOL {num} _.

Section GhostDetectorSummary.
Context {num : Type} `{JsNumber num}.

(** [p.indicators.some(i => i.type === 'inactivity')] *)
Definition hasInactivityIndicator (p : AccountRiskProfile num) : Prop :=
  Exists (fun i => type i = Inactivity) (indicators p).

(** [p.riskLevel === 'High' || p.riskLevel === 'Critical'] *)
Definition isHighRisk (p : AccountRiskProfile num) : Prop :=
  riskLevel p = High ∨ riskLevel p = Critical.

Definition generateSummary (profiles : list (AccountRiskProfile num)) : Summary num :=
  {| totalAccounts := length profiles;
     activeAccounts := length (filter (fun p => riskLevel p = Low) profiles);
     dormantAccounts := length (filter hasInactivityIndicator profiles);
     highRiskAccounts := length (filter isHighRisk profiles);
     totalRecoverableSOL :=
       foldl (fun sum p => nadd sum (estimatedRecoverableSOL p)) (of_Z 0) profiles |}.
End GhostDetectorSummary.

(** ** AuthorityTracker (src/analysis/authority-tracker.ts) *)

Inductive Privilege := Signer | Writable | Owner.

Record AuthorityRelationship := {
  account : string;
  authority : string;
  privilege : Privilege;
  isActive : bool;
}.

#[export] Instance Privilege_eq_dec : EqDecision Privilege.
Proof. solve_decision. Defined.

#[export] Instance AuthorityRelationship_eq_dec : EqDecision AuthorityRelationship.
Proof. solve_decision. Defined.

Module AuthorityTracker.

(** [account.seeds] used as a condition: an array, even an empty one, is
    truthy; [undefined] is not. *)
Definition seeds_truthy (a : PDAccountInfo) : bool :=
  match seeds a with Some _ => true | None => false end.

(** The relationships one account contributes, in push order. *)
Definition relationshipsOf (programId : string) (a : PDAccountInfo)
  : list AuthorityRelationship :=
  (if bool_decide (owner a ≠ pubkey a) then
     [ {| account := pubkey a; authority := owner a;
          privilege := Owner; isActive := true |} ]
   else []) ++
  (if isPDA a && seeds_truthy a then
     [ {| account := pubkey a; authority := programId;
          privilege := Signer; isActive := true |} ]
   else []).

(** [accounts.forEach(account => { ... relationships.push(...) ... })] *)
Definition buildAuthorityRelationships (programId : string)
    (accounts : list PDAccountInfo) : list AuthorityRelationship :=
  foldl (fun relationships a => relationships ++ relationshipsOf programId a)
        [] accounts.

Definition detectLegacyAuthorities (programId : string)
    (relationships : list AuthorityRelationship) (accounts : list PDAccountInfo)
  : list AuthorityRelationship :=
  let accountPubkeys : gset string := list_to_set (pubkey <$> accounts) in
  filter (fun rel => (authority rel ∉ accountPubkeys) ∧ authority rel ≠ programId)
         relationships.

(** The owner edges leaving [current]. *)
Definition ownerAuthorities (relationships : list AuthorityRelationship)
    (current : string) : list AuthorityRelationship :=
  filter (fun rel => account rel = current ∧ privilege rel = Owner) relationships.

(** The inner [buildChain] closure.  [remaining] is [maxDepth - depth],
    which is what the recursion descends on; the chains pushed to the
    shared array [chains], in push order, are the list returned. *)
Fixpoint buildChain (relationships : list AuthorityRelationship)
    (remaining : nat) (current : string) (chain : list string)
  : list (list string) :=
  match remaining with
  | O => [chain]                                  (* depth >= maxDepth *)
  | S remaining' =>
      let authorities := ownerAuthorities relationships current in
      if Nat.eqb (length authorities) 0 then [chain]
      else
        foldl (fun chains auth =>
                 if bool_decide (authority auth ∈ chain) then chains
                 else (chains ++ buildChain relationships remaining'
                                  (authority auth) (chain ++ [authority auth])))
              [] authorities
  end.

Definition buildAuthorityChains (startAccount : string)
    (relationships : list AuthorityRelationship) (maxDepth : Z)
  : list (list string) :=
  buildChain relationships (Z.to_nat maxDepth) startAccount [startAccount].

(** The default [maxDepth = 5]. *)
Definition buildAuthorityChains_default (startAccount : string)
    (relationships : list AuthorityRelationship) : list (list string) :=
  buildAuthorityChains startAccount relationships 5.

(** [Array.from(new Set(xs))]: the distinct elements of [xs], each at
    the place of its first occurrence. *)
Definition Set_from {A} `{EqDecision A} (xs : list A) : list A :=
  foldl (fun seen x => if decide (x ∈ seen) then seen else seen ++ [x]) [] xs.

(** The value returned by [generateAuthorityRiskSummary]. *)
Record AuthorityRiskSummary := {
  hasLegacyAuthority : bool;
  authorityCount : nat;
  privileges : list Privilege;
}.

Definition generateAuthorityRiskSummary (a : PDAccountInfo)
    (relationships : list AuthorityRelationship) : AuthorityRiskSummary :=
  let accountRelationships :=
    filter (fun rel => account rel = pubkey a) relationships in
  {| hasLegacyAuthority :=
       bool_decide (Exists (fun rel => isActive rel = false) accountRelationships);
     authorityCount := length accountRelationships;
     privileges := Set_from (privilege <$> accountRelationships) |}.

End AuthorityTracker.

(** ** GraphBuilder (visualization/graph-builder.ts) *)

Inductive NodeType := Program | Pda | Account.

#[export] Instance NodeType_eq_dec : EqDecision NodeType.
Proof. solve_decision. Defined.

Record NodeMetadata := {
  meta_lamports : Z;
  meta_owner : string;
  lastActivity : option Z;
  meta_isPDA : bool;
}.

Record AccountGraphNode := {
  node_id : string;
  node_pubkey : string;
  node_type : NodeType;
  riskProfile : option (AccountRiskProfile Q);
  metadata : NodeMetadata;
}.

Inductive Relationship := Owns | AuthorityEdge | DerivedFrom | WritesTo.

Record AccountGraphEdge := {
  source : string;
  target : string;
  relationship : Relationship;
  edge_isActive : bool;
}.

Record AccountGraph := {
  nodes : list AccountGraphNode;
  edges : list AccountGraphEdge;
  programId : string;
  scanTimestamp : Z;
  graph_currentSlot : Z;
}.

(** The node and edge objects returned by [exportForVisualization]. *)
Record VisNode := {
  vis_id : string;
  vis_label : string;
  vis_group : NodeType;
  vis_risk : RiskLevel;
  vis_lamports : Z;
  vis_color : string;
  vis_size : Q;
}.

Record VisEdge := {
  vis_from : string;
  vis_to : string;
  vis_edge_label : Relationship;
  vis_edge_color : string;
  vis_dashes : bool;
}.

Module GraphBuilder.

(** [new Map(riskProfiles.map(p => [p.pubkey, p]))]: a later profile
    with the same key replaces an earlier one. *)
Definition riskMapOf (riskProfiles : list (AccountRiskProfile Q))
  : gmap string (AccountRiskProfile Q) :=
  foldl (fun m p => <[profile_pubkey p := p]> m) ∅ riskProfiles.

Definition buildNodes (this_programId : string) (accounts : list PDAccountInfo)
    (riskProfiles : list (AccountRiskProfile Q)) : list AccountGraphNode :=
  let riskMap := riskMapOf riskProfiles in
  let programNode :=
    {| node_id := this_programId; node_pubkey := this_programId;
       node_type := Program; riskProfile := None;
       metadata := {| meta_lamports := 0;
                      meta_owner := "BPFLoaderUpgradeab1e11111111111111111111111";
                      lastActivity := None; meta_isPDA := false |} |} in
  let accountNodes :=
    map (fun a =>
           {| node_id := pubkey a; node_pubkey := pubkey a;
              node_type := if isPDA a then Pda else Account;
              riskProfile := riskMap !! pubkey a;
              metadata := {| meta_lamports := lamports a; meta_owner := owner a;
                             lastActivity := lastWriteSlot a;
                             meta_isPDA := isPDA a |} |}) accounts in
  programNode :: accountNodes.

Definition buildEdges (this_programId : string) (accounts : list PDAccountInfo)
    (authorities : list AuthorityRelationship) : list AccountGraphEdge :=
  let ownership :=
    foldl (fun es a =>
             if bool_decide (owner a = this_programId) then
               es ++ [ {| source := this_programId; target := pubkey a;
                          relationship := Owns; edge_isActive := true |} ]
             else es) [] accounts in
  let derivation :=
    foldl (fun es a =>
             if isPDA a && AuthorityTracker.seeds_truthy a then
               es ++ [ {| source := this_programId; target := pubkey a;
                          relationship := DerivedFrom; edge_isActive := true |} ]
             else es) ownership accounts in
  foldl (fun es auth =>
           if bool_decide (privilege auth = Owner)
              && bool_decide (authority auth ≠ this_programId) then
             es ++ [ {| source := authority auth; target := account auth;
                        relationship := AuthorityEdge;
                        edge_isActive := isActive auth |} ]
           else es) derivation authorities.

(** [Date.now()] is passed in as [now]. *)
Definition buildGraph (this_programId : string) (this_currentSlot : Z) (now : Z)
    (accounts : list PDAccountInfo) (riskProfiles : list (AccountRiskProfile Q))
    (authorities : list AuthorityRelationship) : AccountGraph :=
  {| nodes := buildNodes this_programId accounts riskProfiles;
     edges := buildEdges this_programId accounts authorities;
     programId := this_programId;
     scanTimestamp := now;
     graph_currentSlot := this_currentSlot |}.

(** [n.riskProfile?.confidenceScore || 0] *)
Definition scoreOf (n : AccountGraphNode) : Q :=
  match riskProfile n with
  | Some p => if nfalsy (confidenceScore p) then 0%Q else confidenceScore p
  | None => 0%Q
  end.

(** The comparator passed to [sort]: [(a, b) => scoreB - scoreA]. *)
Definition compareByRisk (a b : AccountGraphNode) : Q :=
  (scoreOf b - scoreOf a)%Q.

(** [Array.prototype.sort] is a stable sort: [a] ends up before [b]
    when [cmp a b < 0], after it when [cmp a b > 0], and elements that
    compare equal keep their order.  With a comparator that is a
    consistent ordering this fixes the result, which is computed here
    by stable insertion. *)
Fixpoint sort_insert {A} (cmp : A → A → Q) (x : A) (l : list A) : list A :=
  match l with
  | [] => [x]
  | y :: l' =>
      if Qle_bool (cmp x y) 0 then x :: y :: l'
      else y :: sort_insert cmp x l'
  end.

Definition Array_sort {A} (cmp : A → A → Q) (l : list A) : list A :=
  foldr (sort_insert cmp) [] l.

(** [arr.slice(0, e)] for an integer [e]: a negative [e] counts from
    the end of the array. *)
Definition Array_slice0 {A} (l : list A) (e : Z) : list A :=
  let len := Z.of_nat (length l) in
  let final := if Z.ltb e 0 then Z.max (len + e) 0 else Z.min e len in
  take (Z.to_nat final) l.

(** [None] stands for the TypeError raised when the graph has no
    program node ([find] returns undefined, whose [id] is then read). *)
Definition filterGraphForVisualization (graph : AccountGraph) (maxNodes : Z)
    (prioritizeHighRisk : bool) : option AccountGraph :=
  if Z.leb (Z.of_nat (length (nodes graph))) maxNodes then Some graph
  else
    match List.find (fun n => bool_decide (node_type n = Program)) (nodes graph) with
    | None => None
    | Some programNode =>
        let otherNodes :=
          filter (fun n => node_type n ≠ Program) (nodes graph) in
        let otherNodes :=
          if prioritizeHighRisk then Array_sort compareByRisk otherNodes
          else otherNodes in
        let selectedNodes := programNode :: Array_slice0 otherNodes (maxNodes - 1) in
        let selectedNodeIds : gset string := list_to_set (node_id <$> selectedNodes) in
        let selectedEdges :=
          filter (fun e => source e ∈ selectedNodeIds ∧ target e ∈ selectedNodeIds)
                 (edges graph) in
        Some {| nodes := selectedNodes;
                edges := selectedEdges;
                programId := programId graph;
                scanTimestamp := scanTimestamp graph;
                graph_currentSlot := graph_currentSlot graph |}
    end.

(** The defaults [maxNodes = 1000], [prioritizeHighRisk = true]. *)
Definition filterGraphForVisualization_cap (graph : AccountGraph) (maxNodes : Z)
  : option AccountGraph :=
  filterGraphForVisualization graph maxNodes true.

(** [arr.slice(start, end)] for integers: a negative index counts from
    the end, and both are clamped to the array. *)
Definition Array_slice {A} (l : list A) (start e : Z) : list A :=
  let len := Z.of_nat (length l) in
  let k := if Z.ltb start 0 then Z.max (len + start) 0 else Z.min start len in
  let final := if Z.ltb e 0 then Z.max (len + e) 0 else Z.min e len in
  take (Z.to_nat (final - k)) (drop (Z.to_nat k) l).

(** [str.slice(0, e)] and [str.slice(-n)] on strings. *)
Definition String_slice0 (s : string) (e : Z) : string :=
  let len := Z.of_nat (String.length s) in
  let final := if Z.ltb e 0 then Z.max (len + e) 0 else Z.min e len in
  String.substring 0 (Z.to_nat final) s.

Definition String_last (s : string) (n : nat) : string :=
  String.substring (String.length s - n) n s.

Definition truncatePubkey (pubkey : string) : string :=
  if Nat.leb (String.length pubkey) 16 then pubkey
  else String_slice0 pubkey 8 +:+ "..." +:+ String_last pubkey 4.

(** [riskLevel] is [node.riskProfile?.riskLevel]. *)
Definition getRiskColor (riskLevel : option RiskLevel) : string :=
  match riskLevel with
  | Some Critical => "#dc2626"
  | Some High => "#ea580c"
  | Some Medium => "#eab308"
  | Some Low => "#22c55e"
  | None => "#6b7280"
  end.

Definition getNodeSize (n : AccountGraphNode) : Q :=
  if bool_decide (node_type n = Program) then 30%Q
  else (10 + scoreOf n / 100 * 20)%Q.

Definition exportForVisualization (graph : AccountGraph)
  : list VisNode * list VisEdge :=
  ( map (fun n =>
           {| vis_id := node_id n;
              vis_label := truncatePubkey (node_pubkey n);
              vis_group := node_type n;
              vis_risk := default Low (riskLevel <$> riskProfile n);
              vis_lamports := meta_lamports (metadata n);
              vis_color := getRiskColor (riskLevel <$> riskProfile n);
              vis_size := getNodeSize n |}) (nodes graph),
    map (fun e =>
           {| vis_from := source e;
              vis_to := target e;
              vis_edge_label := relationship e;
              vis_edge_color := if edge_isActive e then "#888" else "#ff6b6b";
              vis_dashes := negb (edge_isActive e) |}) (edges graph) ).

End GraphBuilder.

(** ** PDADetector (src/scanner/pda-detector.ts) *)

(** [AccountInfo]: an account as fetched, before classification. *)
Record AccountInfo := {
  ai_pubkey : string;
  ai_owner : string;
  ai_lamports : Z;
  ai_data : list Byte.byte;
  ai_executable : bool;
  ai_rentEpoch : Z;
  ai_lastWriteSlot : option Z;
}.

(** The value returned by a successful [attemptCommonDerivations]. *)
Record Derivation := {
  derivation_seeds : list string;
  derivation_bump : Z;
}.

Module PDADetector.

(** Common seed patterns in Solana programs, in search order. *)
Definition commonSeeds : list (list string) :=
  [ ["metadata"]; ["vault"]; ["pool"]; ["authority"]; ["state"]; ["config"];
    ["escrow"]; ["mint"]; ["token"]; ["user"]; ["account"]; ["data"] ].

(** [Buffer.from(s)]: the bytes of the string. *)
Definition Buffer_from (s : string) : list Byte.byte :=
  Stdlib.Strings.String.list_byte_of_string s.

(** [Buffer.from([bump])]: one byte, the value taken modulo 256. *)
Definition Buffer_from_byte (bump : Z) : list Byte.byte :=
  match Byte.of_N (Z.to_N (bump mod 256)) with
  | Some b => [b]
  | None => [Byte.x00]
  end.

(** The seed buffers of one attempt: the pattern's labels, then the
    bump byte. *)
Definition seedBuffers (seedPattern : list string) (bump : Z)
  : list (list Byte.byte) :=
  map Buffer_from seedPattern ++ [Buffer_from_byte bump].

(** [pdAccount.seeds && pdAccount.seeds.length > 0], then
    [pdAccount.isPDA && !pdAccount.seeds]. *)
Definition isLikelyReachable (pdAccount : PDAccountInfo) : bool :=
  match seeds pdAccount with
  | Some (_ :: _) => true
  | Some [] => true            (* neither test holds for an empty array *)
  | None => if isPDA pdAccount then false else true
  end.

Definition getDerivationDepth (pdAccount : PDAccountInfo) : nat :=
  match seeds pdAccount with
  | Some l => if isPDA pdAccount then length l else 0%nat
  | None => 0%nat
  end.

Section WithWeb3.
(** The part of [@solana/web3.js] the detector calls. *)
Context {PublicKey : Type} `{EqDecision PublicKey}.
(** [new PublicKey(s)]; [None] when the string is not a valid key
    and the constructor throws. *)
Variable PublicKey_new : string → option PublicKey.
(** [PublicKey.isOnCurve(key.toBytes())] *)
Variable isOnCurve : PublicKey → bool.
(** [PublicKey.findProgramAddress(seeds, programId)]: the derived
    address with its nonce, or [None] when the call throws. *)
Variable findProgramAddress :
  list (list Byte.byte) → PublicKey → option (PublicKey * Z).

(** The field of a [PDADetector] object. *)
Variable this_programId : PublicKey.

(** The body of the inner loop: derive, compare, and swallow a
    thrown error. *)
Definition tryDerivation (targetPubkey : PublicKey) (seedPattern : list string)
    (bump : Z) : option Derivation :=
  match findProgramAddress (seedBuffers seedPattern bump) this_programId with
  | Some (derivedPubkey, _) =>
      if decide (derivedPubkey = targetPubkey) then
        Some {| derivation_seeds := seedPattern; derivation_bump := bump |}
      else None
  | None => None     (* catch (error) { continue trying } *)
  end.

(** [for (let bump = b; bump >= 0; bump--)] *)
Fixpoint bumpLoop (targetPubkey : PublicKey) (seedPattern : list string)
    (b : nat) : option Derivation :=
  match tryDerivation targetPubkey seedPattern (Z.of_nat b) with
  | Some r => Some r
  | None =>
      match b with
      | O => None
      | S b' => bumpLoop targetPubkey seedPattern b'
      end
  end.

(** [for (const seedPattern of patterns)] *)
Fixpoint patternLoop (targetPubkey : PublicKey) (patterns : list (list string))
  : option Derivation :=
  match patterns with
  | [] => None
  | seedPattern :: rest =>
      match bumpLoop targetPubkey seedPattern 255 with
      | Some r => Some r
      | None => patternLoop targetPubkey rest
      end
  end.

Definition attemptCommonDerivations (targetPubkey : PublicKey)
  : option Derivation :=
  patternLoop targetPubkey commonSeeds.

(** [None] when [new PublicKey(account.pubkey)] throws. *)
Definition analyzePDA (a : AccountInfo) : option PDAccountInfo :=
  match PublicKey_new (ai_pubkey a) with
  | None => None
  | Some key =>
      let isPDA := negb (isOnCurve key) in
      let derivationResult :=
        if isPDA then attemptCommonDerivations key else None in
      Some {| pubkey := ai_pubkey a;
              owner := ai_owner a;
              lamports := ai_lamports a;
              data := ai_data a;
              executable := ai_executable a;
              rentEpoch := ai_rentEpoch a;
              lastWriteSlot := ai_lastWriteSlot a;
              isPDA := isPDA;
              seeds := derivation_seeds <$> derivationResult;
              bump := derivation_bump <$> derivationResult |}
  end.

(** [Promise.all(accounts.map(account => this.analyzePDA(account)))]:
    rejected as soon as one analysis throws. *)
Definition batchAnalyzePDAs (accounts : list AccountInfo)
  : option (list PDAccountInfo) :=
  mapM analyzePDA accounts.
End WithWeb3.

End PDADetector.

(** ** ReportGenerator (visualization/report-generator.ts) *)

Module ReportGenerator.

(** [scanResult.authorities.filter(a => !a.isActive)] *)
Definition inactiveAuthorities (authorities : list AuthorityRelationship)
  : list AuthorityRelationship :=
  filter (fun a => isActive a = false) authorities.

(** The line announcing inactive or legacy authorities. *)
Definition legacyLine (n : nat) : string :=
  "⚠️ Found **" +:+ pretty n +:+ "** inactive/legacy authority relationships.".

(** The authority section of [generateMarkdown]: the lines it pushes. *)
Definition authorityAnalysis (authorities : list AuthorityRelationship)
  : list string :=
  [ "### 🔐 Authority Analysis"; EmptyString;
    "Total authority relationships tracked: **"
      +:+ pretty (length authorities) +:+ "**";
    EmptyString ] ++
  (let inactive := inactiveAuthorities authorities in
   if Nat.ltb 0 (length inactive) then [ legacyLine (length inactive); EmptyString ]
   else []) ++
  [ "---"; EmptyString ].

(** [arr.indexOf(x)]: the first position of [x], or -1. *)
Fixpoint Array_indexOf {A} `{EqDecision A} (x : A) (l : list A) : Z :=
  match l with
  | [] => -1
  | y :: l' =>
      if decide (y = x) then 0
      else let i := Array_indexOf x l' in if Z.ltb i 0 then -1 else i + 1
  end.

Definition riskOrder : list RiskLevel := [Low; Medium; High; Critical].

(** The accounts [generateJSON] writes: all of them without a minimum
    risk level, otherwise those whose place in [riskOrder] is not below
    the minimum's. *)
Definition filteredAccounts {num} (accounts : list (AccountRiskProfile num))
    (minimumRiskLevel : option RiskLevel) : list (AccountRiskProfile num) :=
  match minimumRiskLevel with
  | None => accounts
  | Some minimum =>
      let minIndex := Array_indexOf minimum riskOrder in
      filter (fun a => (Array_indexOf (riskLevel a) riskOrder >= minIndex)%Z) accounts
  end.

(** The accounts of the two findings sections of [generateMarkdown]. *)
Definition criticalAccounts {num} (accounts : list (AccountRiskProfile num))
  : list (AccountRiskProfile num) :=
  filter (fun a => riskLevel a = Critical) accounts.

Definition highRiskFindings {num} (accounts : list (AccountRiskProfile num))
  : list (AccountRiskProfile num) :=
  filter (fun a => riskLevel a = High) accounts.

(** [truncate(str, length)] *)
Definition truncate (str : string) (length : Z) : string :=
  if Z.leb (Z.of_nat (String.length str)) length then str
  else GraphBuilder.String_slice0 str (length - 3) +:+ "...".

End ReportGenerator.

(** ** SolanaRPCClient (scanner/rpc-client.ts) *)

Module RpcClient.

(** [for (let i = 0; i < items.length; i += batchSize)
       batches.push(items.slice(i, i + batchSize))].
    The loop need not end, so it runs on fuel: [None] when the fuel is
    used up before the loop is left. *)
Fixpoint createBatches_loop {T} (fuel : nat) (items : list T) (batchSize : Z)
    (i : Z) (batches : list (list T)) : option (list (list T)) :=
  if Z.ltb i (Z.of_nat (length items)) then
    match fuel with
    | O => None
    | S fuel' =>
        createBatches_loop fuel' items batchSize (i + batchSize)
          (batches ++ [GraphBuilder.Array_slice items i (i + batchSize)])
    end
  else Some batches.

Definition createBatches {T} (fuel : nat) (items : list T) (batchSize : Z)
  : option (list (list T)) :=
  createBatches_loop fuel items batchSize 0 [].

Section WithConnection.
(** [connection.getSignaturesForAddress(pubkey, { limit: 1 })]: the slots
    of the signatures found, or [None] when the request fails.  A key is
    given by its text, [pubkey.toString()], the text the scanner built
    it from, and the connection answers the same for the same address
    throughout one scan. *)
Variable getSignaturesForAddress : string → option (list Z).

Definition getAccountLastActivity (pubkey : string) : option Z :=
  match getSignaturesForAddress pubkey with
  | Some (slot :: _) => Some slot
  | Some [] => None
  | None => None           (* Silent fail - this is optional metadata *)
  end.

(** One batch: every lookup of the batch, then [activities.set] for each
    result in order. *)
Definition recordBatch (activities : gmap string (option Z)) (batch : list string)
  : gmap string (option Z) :=
  foldl (fun m pubkey => <[pubkey := getAccountLastActivity pubkey]> m) activities batch.

(** [None] when [createBatches] does not return. *)
Definition batchGetAccountActivities (fuel : nat) (pubkeys : list string)
    (maxAccountsPerBatch : Z) : option (gmap string (option Z)) :=
  match createBatches fuel pubkeys maxAccountsPerBatch with
  | None => None
  | Some batches => Some (foldl recordBatch ∅ batches)
  end.
End WithConnection.

End RpcClient.

(** ** ProgramScanner (scanner/scanner.ts) *)

Module ProgramScanner.

(** [activities.get(account.pubkey)]: [undefined] for a missing key and
    for a key that maps to [undefined]. *)
Definition enrichAccountsWithActivity (accounts : list PDAccountInfo)
    (activities : gmap string (option Z)) : list PDAccountInfo :=
  map (fun a =>
         {| pubkey := pubkey a; owner := owner a; lamports := lamports a;
            data := data a; executable := executable a; rentEpoch := rentEpoch a;
            lastWriteSlot := mjoin (activities !! pubkey a);
            isPDA := isPDA a; seeds := seeds a; bump := bump a |}) accounts.

End ProgramScanner.

(** ** The scan command (cli/commands/scan.ts) *)

(** [ScanResult] (scanner/types.ts). *)
Record ScanResult := {
  sr_programId : string;
  sr_scanTimestamp : Z;
  sr_currentSlot : Z;
  sr_rpcEndpoint : string;
  sr_summary : Summary Q;
  sr_accounts : list (AccountRiskProfile Q);
  sr_graph : AccountGraph;
  sr_authorities : list AuthorityRelationship;
}.

(** What [scanCommand] reads from its options and from [config.json]. *)
Record ScanSettings := {
  cfg_programId : string;
  cfg_rpcEndpoint : string;
  cfg_inactiveSlots : Z;
  cfg_weights : RiskScoringWeights Q;
  cfg_thresholds : RiskThresholds Q;
  cfg_maxNodesInGraph : Z;
}.

Module ScanCommand.
(** [scanResult.authorities]: the relationships built from the enriched
    accounts, stored in the result as they are. *)
Definition scanResult_authorities (programId : string)
    (enrichedAccounts : list PDAccountInfo) : list AuthorityRelationship :=
  AuthorityTracker.buildAuthorityRelationships programId enrichedAccounts.

(** Steps 3 to 6 of [scanCommand], from the enriched accounts to the
    scan result.  [graphNow] and [resultNow] are the two readings of
    [Date.now()]; [None] stands for an exception, which the command
    reports as a failed scan. *)
Definition buildScanResult (cfg : ScanSettings) (currentSlot : Z)
    (enrichedAccounts : list PDAccountInfo) (graphNow resultNow : Z)
  : option ScanResult :=
  let ghostDetector :=
    {| currentSlot := currentSlot;
       inactiveSlotThreshold := cfg_inactiveSlots cfg;
       weights := cfg_weights cfg;
       thresholds := cfg_thresholds cfg |} in
  let minRentExemption := 890880%Z in
  let riskProfiles := analyzeAccounts ghostDetector enrichedAccounts minRentExemption in
  let authorities :=
    AuthorityTracker.buildAuthorityRelationships (cfg_programId cfg) enrichedAccounts in
  let graph :=
    GraphBuilder.buildGraph (cfg_programId cfg) currentSlot graphNow
      enrichedAccounts riskProfiles authorities in
  match GraphBuilder.filterGraphForVisualization_cap graph (cfg_maxNodesInGraph cfg) with
  | None => None
  | Some filteredGraph =>
      Some {| sr_programId := cfg_programId cfg;
              sr_scanTimestamp := resultNow;
              sr_currentSlot := currentSlot;
              sr_rpcEndpoint := cfg_rpcEndpoint cfg;
              sr_summary := generateSummary riskProfiles;
              sr_accounts := riskProfiles;
              sr_graph := filteredGraph;
              sr_authorities := authorities |}
  end.

(** The comparator [(a, b) => b.confidenceScore - a.confidenceScore]. *)
Definition compareByScore (a b : AccountRiskProfile Q) : Q :=
  (confidenceScore b - confidenceScore a)%Q.

(** The accounts listed by [displaySummary] (and by the dashboard of the
    web UI): the High and Critical ones, by descending score, five at
    most. *)
Definition topRisks (accounts : list (AccountRiskProfile Q))
  : list (AccountRiskProfile Q) :=
  GraphBuilder.Array_slice0
    (GraphBuilder.Array_sort compareByScore (filter isHighRisk accounts)) 5.
End ScanCommand.

(** ** The two scoring scenarios *)

Module Scenario.

(** The weights and thresholds of [config.json]. *)
Definition weightsQ (authorityMismatch orphanedPda : Q) : RiskScoringWeights Q :=
  {| inactivity := 3 # 10; authorityMismatch := authorityMismatch;
     orphanedPda := orphanedPda; rentRecoverable := 2 # 10 |}.

Definition thresholdsQ : RiskThresholds Q :=
  {| low := 25%Q; medium := 50%Q; high := 75%Q; critical := 90%Q |}.

Definition detectorQ (currentSlot inactiveSlotThreshold : Z)
    (authorityMismatch orphanedPda : Q) : GhostDetector Q :=
  {| currentSlot := currentSlot;
     inactiveSlotThreshold := inactiveSlotThreshold;
     weights := weightsQ authorityMismatch orphanedPda;
     thresholds := thresholdsQ |}.

(** The same configuration as binary64 values. *)
Definition detector64 (currentSlot inactiveSlotThreshold : Z) : GhostDetector float :=
  {| currentSlot := currentSlot;
     inactiveSlotThreshold := inactiveSlotThreshold;
     weights := {| inactivity := 0.3%float; authorityMismatch := 0.25%float;
                   orphanedPda := 0.25%float; rentRecoverable := 0.2%float |};
     thresholds := {| low := 25%float; medium := 50%float;
                      high := 75%float; critical := 90%float |} |}.

Definition minRentExemption : Z := 890880.

(** Balance 2,000,000, no known activity, not a PDA. *)
Definition unknownActivity : PDAccountInfo :=
  {| pubkey := "Acct1111"; owner := "Prog1111"; lamports := 2000000;
     data := []; executable := false; rentEpoch := 0;
     lastWriteSlot := None; isPDA := false; seeds := None; bump := None |}.

(** Balance 2,000,000, last written at slot 1,000, a PDA whose seeds
    were not recovered. *)
Definition staleOrphan : PDAccountInfo :=
  {| pubkey := "Acct1111"; owner := "Prog1111"; lamports := 2000000;
     data := []; executable := false; rentEpoch := 0;
     lastWriteSlot := Some 1000%Z; isPDA := true; seeds := None; bump := None |}.

(** Current slot 1,000,000 and the default threshold of 500,000 slots. *)
Definition profileUnknownQ : AccountRiskProfile Q :=
  generateRiskProfile (detectorQ 1000000 500000 (1 # 4) (1 # 4))
                      unknownActivity minRentExemption.

Definition profileStaleQ : AccountRiskProfile Q :=
  generateRiskProfile (detectorQ 1000000 500000 (1 # 4) (1 # 4))
                      staleOrphan minRentExemption.

Definition profileUnknown64 : AccountRiskProfile float :=
  generateRiskProfile (detector64 1000000 500000) unknownActivity minRentExemption.

Definition profileStale64 : AccountRiskProfile float :=
  generateRiskProfile (detector64 1000000 500000) staleOrphan minRentExemption.

(** An account last written in slot 0, scanned at slot 100. *)
Definition genesisWrite : PDAccountInfo :=
  {| pubkey := "Acct1111"; owner := "Prog1111"; lamports := 890880;
     data := []; executable := false; rentEpoch := 0;
     lastWriteSlot := Some 0%Z; isPDA := false; seeds := None; bump := None |}.

(** A figure quoted to two decimals: [x] is approximately [v] when it
    differs from [v] by at most [tol]. *)
Definition approximately (tol x v : Q) : Prop := (Qabs (x - v) <= tol)%Q.

(** The profile carries exactly the indicators [ws], given as kind and
    weight, in this order; weights are compared by [eqv]. *)
Definition emits (eqv : Q → Q → Prop) (p : AccountRiskProfile Q)
    (ws : list (IndicatorType * Q)) : Prop :=
  Forall2 (fun i tw => type i = tw.1 ∧ eqv (weight i) tw.2) (indicators p) ws.

(** The profile has confidence score [score] (compared by [eqv]), risk
    level [level] and estimated recoverable balance [est]. *)
Definition scores (eqv : Q → Q → Prop) (p : AccountRiskProfile Q)
    (score : Q) (level : RiskLevel) (est : Q) : Prop :=
  eqv (confidenceScore p) score ∧ riskLevel p = level ∧
  (estimatedRecoverableSOL p == est)%Q.

End Scenario.

(** ** Sample inputs *)

Module Sample.

Definition plainAccount (pubkey owner : string) : PDAccountInfo :=
  {| pubkey := pubkey; owner := owner; lamports := 890880;
     data := []; executable := false; rentEpoch := 0;
     lastWriteSlot := None; isPDA := false; seeds := None; bump := None |}.

(** Two accounts, each recorded as the owner of the other. *)
Definition mutualOwners : list PDAccountInfo :=
  [ plainAccount "A" "B"; plainAccount "B" "A" ].

Definition programNode (id : string) : AccountGraphNode :=
  {| node_id := id; node_pubkey := id; node_type := Program; riskProfile := None;
     metadata := {| meta_lamports := 0;
                    meta_owner := "BPFLoaderUpgradeab1e11111111111111111111111";
                    lastActivity := None; meta_isPDA := false |} |}.

(** An account node with a profile of the given confidence score. *)
Definition accountNode (id : string) (score : Q) : AccountGraphNode :=
  {| node_id := id; node_pubkey := id; node_type := Account;
     riskProfile := Some {| profile_pubkey := id; riskLevel := Low;
                            confidenceScore := score; indicators := [];
                            estimatedRecoverableSOL := 0%Q |};
     metadata := {| meta_lamports := 890880; meta_owner := "Prog";
                    lastActivity := None; meta_isPDA := false |} |}.

Definition ownsEdge (source target : string) : AccountGraphEdge :=
  {| source := source; target := target; relationship := Owns;
     edge_isActive := true |}.

(** The program node and one account it owns. *)
Definition smallGraph : AccountGraph :=
  {| nodes := [ programNode "Prog"; accountNode "A" 30 ];
     edges := [ ownsEdge "Prog" "A" ];
     programId := "Prog"; scanTimestamp := 0; graph_currentSlot := 100 |}.

(** The program node and four accounts with scores 30, 55, 30, 80. *)
Definition fiveNodeGraph : AccountGraph :=
  {| nodes := [ accountNode "A" 30; programNode "Prog"; accountNode "B" 55;
                accountNode "C" 30; accountNode "D" 80 ];
     edges := [ ownsEdge "Prog" "A"; ownsEdge "Prog" "B";
                ownsEdge "Prog" "C"; ownsEdge "Prog" "D"; ownsEdge "D" "B" ];
     programId := "Prog"; scanTimestamp := 0; graph_currentSlot := 100 |}.

(** A stand-in for the key library: a key is a string, and the address
    derived from seeds is the program key followed by the seed bytes,
    so that the attempts of the search give distinct addresses; no key
    is on the curve. *)
Definition textKey_new (s : string) : option string := Some s.

Definition textKey_isOnCurve (k : string) : bool := false.

Definition textKey_findProgramAddress (seeds : list (list Byte.byte))
    (programId : string) : option (string * Z) :=
  Some (programId +:+ String.string_of_list_byte (concat seeds), 255%Z).

(** A derivation in which all attempts collide: whatever the seeds, the
    address derived is "X". *)
Definition sameKey_findProgramAddress (seeds : list (list Byte.byte))
    (programId : string) : option (string * Z) :=
  Some ("X", 255%Z).

(** The address derived for the program "Prog" from "vault" and bump 7. *)
Definition vaultAddress : string :=
  "Prog" +:+ String.string_of_list_byte (concat (PDADetector.seedBuffers ["vault"] 7)).

Definition vaultAccount : AccountInfo :=
  {| ai_pubkey := vaultAddress; ai_owner := "Prog"; ai_lamports := 2000000;
     ai_data := []; ai_executable := false; ai_rentEpoch := 0;
     ai_lastWriteSlot := None |}.

Definition ownerEdge (account authority : string) : AuthorityRelationship :=
  {| account := account; authority := authority;
     privilege := Owner; isActive := true |}.

(** Three accounts of the program "Prog". *)
Definition programAccounts : list PDAccountInfo :=
  [ plainAccount "A" "Prog"; plainAccount "B" "Prog"; plainAccount "C" "Prog" ].

(** A connection that knows a signature of "A" at slot 999000, none of
    "B", and fails for every other address. *)
Definition signaturesOf (pubkey : string) : option (list Z) :=
  if decide (pubkey = "A") then Some [999000%Z]
  else if decide (pubkey = "B") then Some []
  else None.

(** The settings of [config.json] for the program "Prog". *)
Definition settings : ScanSettings :=
  {| cfg_programId := "Prog";
     cfg_rpcEndpoint := "https://api.mainnet-beta.solana.com";
     cfg_inactiveSlots := 500000;
     cfg_weights := Scenario.weightsQ (1 # 4) (1 # 4);
     cfg_thresholds := Scenario.thresholdsQ;
     cfg_maxNodesInGraph := 1000 |}.

End Sample.

(** ** Vocabulary of the properties *)

Module Props.

(** The sum of the weights of the emitted indicators. *)
Definition sum_weights (l : list (RiskIndicator Q)) : Q :=
  foldr (fun i s => (weight i + s)%Q) 0%Q l.

Definition nonneg_weights (w : RiskScoringWeights Q) : Prop :=
  (0 <= inactivity w)%Q ∧ (0 <= authorityMismatch w)%Q ∧
  (0 <= orphanedPda w)%Q ∧ (0 <= rentRecoverable w)%Q.

(** One configured weight is raised to [x]; the other three stay. *)
Inductive single_weight_increase (w : RiskScoringWeights Q)
  : RiskScoringWeights Q → Prop :=
  | incr_inactivity x :
      (inactivity w <= x)%Q →
      single_weight_increase w
        {| inactivity := x; authorityMismatch := authorityMismatch w;
           orphanedPda := orphanedPda w; rentRecoverable := rentRecoverable w |}
  | incr_authorityMismatch x :
      (authorityMismatch w <= x)%Q →
      single_weight_increase w
        {| inactivity := inactivity w; authorityMismatch := x;
           orphanedPda := orphanedPda w; rentRecoverable := rentRecoverable w |}
  | incr_orphanedPda x :
      (orphanedPda w <= x)%Q →
      single_weight_increase w
        {| inactivity := inactivity w; authorityMismatch := authorityMismatch w;
           orphanedPda := x; rentRecoverable := rentRecoverable w |}
  | incr_rentRecoverable x :
      (rentRecoverable w <= x)%Q →
      single_weight_increase w
        {| inactivity := inactivity w; authorityMismatch := authorityMismatch w;
           orphanedPda := orphanedPda w; rentRecoverable := x |}.

(** The detector with another weight table and everything else kept. *)
Definition with_weights (d : GhostDetector Q) (w : RiskScoringWeights Q)
  : GhostDetector Q :=
  {| currentSlot := currentSlot d;
     inactiveSlotThreshold := inactiveSlotThreshold d;
     weights := w;
     thresholds := thresholds d |}.

(** Every weight of [w] is at most the corresponding weight of [w']. *)
Definition weights_le (w w' : RiskScoringWeights Q) : Prop :=
  (inactivity w <= inactivity w')%Q ∧ (authorityMismatch w <= authorityMismatch w')%Q ∧
  (orphanedPda w <= orphanedPda w')%Q ∧ (rentRecoverable w <= rentRecoverable w')%Q.

(** Two optional indicators are both absent, or both present with the
    second weighing at least as much. *)
Definition indicator_le (o o' : option (RiskIndicator Q)) : Prop :=
  match o, o' with
  | None, None => True
  | Some i, Some i' => (weight i <= weight i')%Q
  | _, _ => False
  end.

(** The graph has its one synthetic program node. *)
Definition one_program_node (G : AccountGraph) : Prop :=
  length (filter (fun n => node_type n = Program) (nodes G)) = 1%nat.

(** [ranked] lists the nodes [others] by descending confidence score,
    ties broken by original order: the same nodes, no node before one
    of higher score, and the nodes of any one score in the order they
    have in [others]. *)
Definition ranked_by_risk (others ranked : list AccountGraphNode) : Prop :=
  ranked ≡ₚ others ∧
  StronglySorted (fun a b => (GraphBuilder.scoreOf b <= GraphBuilder.scoreOf a)%Q)
                 ranked ∧
  ∀ s : Q, filter (fun n => (GraphBuilder.scoreOf n == s)%Q) ranked =
           filter (fun n => (GraphBuilder.scoreOf n == s)%Q) others.

(** [top] is the first [k] nodes of that ranking. *)
Definition top_ranked (others : list AccountGraphNode) (k : nat)
    (top : list AccountGraphNode) : Prop :=
  ∃ ranked, ranked_by_risk others ranked ∧ top = take k ranked.

(** What filtering a graph [G] of [N] nodes with cap [C] is to
    return: [G] itself when [N ≤ C]; otherwise a graph of exactly [C]
    nodes, the program node followed by the top [C - 1] other nodes,
    whose edges all join retained nodes. *)
Definition filtered_as_specified (G : AccountGraph) (C : Z) : Prop :=
  ((Z.of_nat (length (nodes G)) <= C)%Z →
     GraphBuilder.filterGraphForVisualization_cap G C = Some G) ∧
  ((C < Z.of_nat (length (nodes G)))%Z →
     ∃ G' programNode,
       GraphBuilder.filterGraphForVisualization_cap G C = Some G' ∧
       node_type programNode = Program ∧
       programNode ∈ nodes G ∧ programNode ∈ nodes G' ∧
       Z.of_nat (length (nodes G')) = C ∧
       (∃ top, nodes G' = programNode :: top ∧
               top_ranked (filter (fun n => node_type n ≠ Program) (nodes G))
                          (Z.to_nat (C - 1)) top) ∧
       (∀ e, e ∈ edges G' →
             source e ∈ node_id <$> nodes G' ∧ target e ∈ node_id <$> nodes G')).

Section SeedSearch.
Context {PublicKey : Type} `{EqDecision PublicKey}.
Variable findProgramAddress :
  list (list Byte.byte) → PublicKey → option (PublicKey * Z).
Variable programId : PublicKey.

(** [target] is the address derived from the program address and
    the seeds [label bytes, bump byte]. *)
Definition derives (seedPattern : list string) (bump : Z) (target : PublicKey)
  : Prop :=
  ∃ nonce, findProgramAddress (PDADetector.seedBuffers seedPattern bump) programId
           = Some (target, nonce).

(** No two attempts of the search derive the same address. *)
Definition collision_free : Prop :=
  ∀ p p' b b' a,
    p ∈ PDADetector.commonSeeds → p' ∈ PDADetector.commonSeeds →
    (0 <= b <= 255)%Z → (0 <= b' <= 255)%Z →
    derives p b a → derives p' b' a → p = p' ∧ b = b'.

(** The bumps [n], [n - 1], ..., 0. *)
Definition bumpsDown (n : nat) : list Z := Z.of_nat <$> rev (seq 0 (S n)).

(** The attempts of the search in the order they are made: the
    catalogue in order, and for each pattern the bumps from 255 down
    to 0. *)
Definition searchOrder : list (list string * Z) :=
  flat_map (fun p => (fun b => (p, b)) <$> bumpsDown 255) PDADetector.commonSeeds.

(** The first attempt of a list that derives [target]. *)
Fixpoint firstMatch (target : PublicKey) (attempts : list (list string * Z))
  : option Derivation :=
  match attempts with
  | [] => None
  | (p, b) :: rest =>
      match PDADetector.tryDerivation findProgramAddress programId target p b with
      | Some r => Some r
      | None => firstMatch target rest
      end
  end.
End SeedSearch.

(** The order Low < Medium < High < Critical of the risk levels. *)
Definition level_rank (l : RiskLevel) : nat :=
  match l with Low => 0 | Medium => 1 | High => 2 | Critical => 3 end.

Definition level_le (l l' : RiskLevel) : Prop := level_rank l ≤ level_rank l'.

Definition Qsum (l : list Q) : Q := foldr Qplus 0%Q l.

(** No last write is known for the account (none recorded, or slot 0),
    or the last write is older than the threshold. *)
Definition unknown_or_stale {num} (d : GhostDetector num) (a : PDAccountInfo) : Prop :=
  lastWriteSlot_falsy a = true ∨
  (inactiveSlotThreshold d < currentSlot d - default 0%Z (lastWriteSlot a))%Z.

(** Each address of the chain is an owner-authority of the one before. *)
Definition owner_linked (relationships : list AuthorityRelationship)
    (chain : list string) : Prop :=
  ∀ i x y, chain !! i = Some x → chain !! S i = Some y →
    ∃ rel, rel ∈ relationships ∧ account rel = x ∧ authority rel = y ∧
           privilege rel = Owner.

(** The account with its last write slot replaced. *)
Definition with_activity (a : PDAccountInfo) (slot : option Z) : PDAccountInfo :=
  {| pubkey := pubkey a; owner := owner a; lamports := lamports a;
     data := data a; executable := executable a; rentEpoch := rentEpoch a;
     lastWriteSlot := slot;
     isPDA := isPDA a; seeds := seeds a; bump := bump a |}.

Definition high_or_critical (l : RiskLevel) : Prop := l = High ∨ l = Critical.
Definition low_or_medium (l : RiskLevel) : Prop := l = Low ∨ l = Medium.

(** What the signature request for the account's address tells about its
    dormancy: the request failed, found no signature, found one at slot
    0, or found one older than the threshold. *)
Definition dormant_by_lookup {num} (d : GhostDetector num)
    (getSignaturesForAddress : string → option (list Z)) (a : PDAccountInfo) : Prop :=
  match getSignaturesForAddress (pubkey a) with
  | Some (slot :: _) =>
      slot = 0%Z ∨ (inactiveSlotThreshold d < currentSlot d - slot)%Z
  | Some [] => True
  | None => True
  end.

#[global] Instance dormant_by_lookup_dec {num} (d : GhostDetector num)
    getSignaturesForAddress a :
  Decision (dormant_by_lookup d getSignaturesForAddress a).
Proof.
  unfold dormant_by_lookup.
  destruct (getSignaturesForAddress (pubkey a)) as [[|slot ?]|]; apply _.
Defined.

End Props.

(** * Properties *)

(** ** The risk scorer *)

Section ScorerGeneric.
Context {num : Type} `{JsNumber num}.

(** Whatever the number representation, an emitted inactivity
    indicator weighs [weights.inactivity * 100]. *)
Lemma checkInactivity_weight (d : GhostDetector num) a i :
  checkInactivity d a = Some i →
  type i = Inactivity ∧ weight i = nmul (inactivity (weights d)) (of_Z 100).
Proof.
  unfold checkInactivity.
  destruct (lastWriteSlot_falsy a); [intros [= <-]; done|].
  destruct (Z.gtb _ _); [intros [= <-]; done | done].
Qed.

(** Apart from a recorded slot 0, the indicator is emitted exactly for
    unknown or stale activity. *)
Lemma checkInactivity_emitted_iff (d : GhostDetector num) a :
  lastWriteSlot a ≠ Some 0%Z →
  is_Some (checkInactivity d a) ↔
    lastWriteSlot a = None ∨
    ∃ s, lastWriteSlot a = Some s ∧
         (currentSlot d - s > inactiveSlotThreshold d)%Z.
Proof.
  intros Hnz. unfold checkInactivity, lastWriteSlot_falsy.
  destruct (lastWriteSlot a) as [s|] eqn:Hs; simpl.
  - destruct (Z.eqb_spec s 0) as [->|Hne]; [done|].
    destruct (Z.gtb_spec (currentSlot d - s) (inactiveSlotThreshold d)) as [Hgt|Hle].
    + split; [|by eauto]. intros _. right. exists s. split; [done|lia].
    + split; [by intros [? [=]]|].
      intros [[=]|(s' & [= <-] & Hgt)]. lia.
  - split; [by left | by eauto].
Qed.

Lemma calculateRecoverableSOL_low_medium a minRent l :
  Props.low_or_medium l → calculateRecoverableSOL (num:=num) a minRent l = of_Z 0.
Proof. by intros [-> | ->]. Qed.

Lemma calculateRecoverableSOL_high_critical a minRent l :
  Props.high_or_critical l →
  calculateRecoverableSOL (num:=num) a minRent l =
    ndiv (of_Z (Z.max 0 (lamports a - minRent))) (of_Z 1000000000).
Proof. by intros [-> | ->]. Qed.

Lemma riskLevel_cases (l : RiskLevel) :
  Props.high_or_critical l ∨ Props.low_or_medium l.
Proof. unfold Props.high_or_critical, Props.low_or_medium. destruct l; auto. Qed.
End ScorerGeneric.

(** C1.  In every profile produced by [generateRiskProfile], a positive
    [estimatedRecoverableSOL] implies risk level High or Critical; at
    High or Critical the estimate is [max(0, lamports - minRent) / 1e9];
    at Low or Medium it is 0, whatever indicators were emitted. *)
Theorem recoverable_only_at_high_risk
    (d : GhostDetector Q) (a : PDAccountInfo) (minRent : Z) :
  ((0 < estimatedRecoverableSOL (generateRiskProfile d a minRent))%Q →
     Props.high_or_critical (riskLevel (generateRiskProfile d a minRent))) ∧
  (Props.high_or_critical (riskLevel (generateRiskProfile d a minRent)) →
     (estimatedRecoverableSOL (generateRiskProfile d a minRent) ==
        inject_Z (Z.max 0 (lamports a - minRent)) / 1000000000)%Q) ∧
  (Props.low_or_medium (riskLevel (generateRiskProfile d a minRent)) →
     (estimatedRecoverableSOL (generateRiskProfile d a minRent) == 0)%Q).
Proof.
  set (l := riskLevel (generateRiskProfile d a minRent)).
  assert (Hest : estimatedRecoverableSOL (generateRiskProfile d a minRent) =
                 calculateRecoverableSOL a minRent l) by reflexivity.
  rewrite Hest. split; [|split].
  - intros Hpos. destruct (riskLevel_cases l) as [Hh|Hl]; [done|].
    rewrite (calculateRecoverableSOL_low_medium a minRent l Hl) in Hpos.
    simpl in Hpos. by apply Qlt_irrefl in Hpos.
  - intros Hh. by rewrite (calculateRecoverableSOL_high_critical a minRent l Hh).
  - intros Hl. by rewrite (calculateRecoverableSOL_low_medium a minRent l Hl).
Qed.

(** The same three facts for binary64 numbers. *)
Lemma binary64_recoverable_only_at_high_risk
    (d : GhostDetector float) (a : PDAccountInfo) (minRent : Z) :
  (PrimFloat.ltb 0 (estimatedRecoverableSOL (generateRiskProfile d a minRent)) = true →
     Props.high_or_critical (riskLevel (generateRiskProfile d a minRent))) ∧
  (Props.high_or_critical (riskLevel (generateRiskProfile d a minRent)) →
     estimatedRecoverableSOL (generateRiskProfile d a minRent) =
       (float_of_Z (Z.max 0 (lamports a - minRent)) / 1000000000)%float) ∧
  (Props.low_or_medium (riskLevel (generateRiskProfile d a minRent)) →
     estimatedRecoverableSOL (generateRiskProfile d a minRent) = 0%float).
Proof.
  set (l := riskLevel (generateRiskProfile d a minRent)).
  assert (Hest : estimatedRecoverableSOL (generateRiskProfile d a minRent) =
                 calculateRecoverableSOL a minRent l) by reflexivity.
  rewrite Hest. split; [|split].
  - intros Hpos. destruct (riskLevel_cases l) as [Hh|Hl]; [done|].
    rewrite (calculateRecoverableSOL_low_medium a minRent l Hl) in Hpos.
    vm_compute in Hpos. discriminate.
  - intros Hh. by rewrite (calculateRecoverableSOL_high_critical a minRent l Hh).
  - intros Hl. by rewrite (calculateRecoverableSOL_low_medium a minRent l Hl).
Qed.

(** C5.  An account whose last write is recorded at slot 0 is scored as
    if its activity were unknown: with current slot 100 and threshold
    500,000 the activity is known and not stale, yet the inactivity
    indicator is emitted, with the reason of the no-activity branch. *)
Theorem checkInactivity_slot_zero_flagged :
  lastWriteSlot Scenario.genesisWrite = Some 0%Z ∧
  ¬ (100 - 0 > 500000)%Z ∧
  checkInactivity (Scenario.detectorQ 100 500000 (1 # 4) (1 # 4)) Scenario.genesisWrite =
    Some {| type := Inactivity; reason := NoWriteActivityDetected;
            weight := ((3 # 10) * 100)%Q |}.
Proof. split; [done|]. split; [lia | reflexivity]. Qed.

(** *** The confidence score *)

(** The integer constants of the scorer, read as rationals. *)
Ltac q_consts :=
  change (inject_Z 0) with 0%Q in *;
  change (inject_Z 10) with 10%Q in *;
  change (inject_Z 100) with 100%Q in *;
  change (inject_Z 1000000000) with 1000000000%Q in *.

Lemma sum_weights_snoc l i :
  (Props.sum_weights (l ++ [i]) == Props.sum_weights l + weight i)%Q.
Proof.
  induction l as [|j l IH]; simpl.
  - ring.
  - rewrite IH. ring.
Qed.

(** The running total of [generateRiskProfile] is the sum of the weights
    pushed so far. *)
Lemma pushIndicator_total (st : list (RiskIndicator Q) * Q) ind :
  (st.2 == Props.sum_weights st.1)%Q →
  ((pushIndicator st ind).2 == Props.sum_weights (pushIndicator st ind).1)%Q.
Proof.
  intros Hst. destruct ind as [i|]; simpl; [|done].
  rewrite sum_weights_snoc, Hst. reflexivity.
Qed.

Lemma pushIndicator_nonneg (st : list (RiskIndicator Q) * Q) ind :
  (0 <= st.2)%Q →
  (∀ i, ind = Some i → (0 <= weight i)%Q) →
  (0 <= (pushIndicator st ind).2)%Q.
Proof.
  intros Hst Hind. destruct ind as [i|]; simpl; [|done].
  specialize (Hind i eq_refl). lra.
Qed.

Lemma pushIndicator_mono (st st' : list (RiskIndicator Q) * Q) ind ind' :
  (st.2 <= st'.2)%Q → Props.indicator_le ind ind' →
  ((pushIndicator st ind).2 <= (pushIndicator st' ind').2)%Q.
Proof.
  intros Hst Hind. destruct ind as [i|], ind' as [i'|]; simpl in *; try done.
  lra.
Qed.

(** The factor that multiplies the rent weight is never negative. *)
Lemma rent_factor_nonneg (amount : Z) :
  (amount > 0)%Z →
  (0 <= Qmin 100 (inject_Z amount / 1000000000 * 10))%Q.
Proof.
  intros Hpos. apply Q.min_glb; [lra|].
  assert (0 < inject_Z amount)%Q.
  { change 0%Q with (inject_Z 0). rewrite <- Zlt_Qlt. lia. }
  assert (0 < inject_Z amount / 1000000000)%Q.
  { apply Qlt_shift_div_l; lra. }
  lra.
Qed.

Lemma checkInactivity_nonneg (d : GhostDetector Q) a i :
  (0 <= inactivity (weights d))%Q →
  checkInactivity d a = Some i → (0 <= weight i)%Q.
Proof.
  intros Hw Hi. destruct (checkInactivity_weight d a i Hi) as [_ ->].
  simpl. q_consts. apply Qmult_le_0_compat; [done | lra].
Qed.

Lemma checkOrphanedPDA_weight (d : GhostDetector Q) a i :
  checkOrphanedPDA d a = Some i →
  weight i = (orphanedPda (weights d) * 100)%Q.
Proof.
  unfold checkOrphanedPDA.
  destruct (negb (isPDA a)); [done|].
  destruct (seeds_missing a); [intros [= <-]; done | done].
Qed.


Lemma checkOrphanedPDA_nonneg (d : GhostDetector Q) a i :
  (0 <= orphanedPda (weights d))%Q →
  checkOrphanedPDA d a = Some i → (0 <= weight i)%Q.
Proof.
  intros Hw Hi. rewrite (checkOrphanedPDA_weight d a i Hi).
  apply Qmult_le_0_compat; [done | lra].
Qed.

Lemma checkRentRecoverable_weight (d : GhostDetector Q) a minRent i :
  checkRentRecoverable d a minRent = Some i →
  (lamports a - minRent > 0)%Z ∧
  weight i = (rentRecoverable (weights d) *
              Qmin 100 (inject_Z (lamports a - minRent) / 1000000000 * 10))%Q.
Proof.
  unfold checkRentRecoverable.
  destruct (Z.gtb_spec (lamports a - minRent) 0) as [Hgt|Hle]; [|done].
  intros [= <-]. split; [lia | done].
Qed.

Lemma checkRentRecoverable_nonneg (d : GhostDetector Q) a minRent i :
  (0 <= rentRecoverable (weights d))%Q →
  checkRentRecoverable d a minRent = Some i → (0 <= weight i)%Q.
Proof.
  intros Hw Hi. destruct (checkRentRecoverable_weight d a minRent i Hi) as [Hpos ->].
  apply Qmult_le_0_compat; [done | by apply rent_factor_nonneg].
Qed.

(** Raising weights never removes an indicator and never lowers its
    weight. *)
Lemma checkInactivity_mono (d : GhostDetector Q) w' a :
  Props.weights_le (weights d) w' →
  Props.indicator_le (checkInactivity d a) (checkInactivity (Props.with_weights d w') a).
Proof.
  intros (Hi & _). unfold checkInactivity; simpl. q_consts.
  destruct (lastWriteSlot_falsy a); simpl; [lra|].
  destruct (Z.gtb _ _); simpl; [lra | done].
Qed.

Lemma checkOrphanedPDA_mono (d : GhostDetector Q) w' a :
  Props.weights_le (weights d) w' →
  Props.indicator_le (checkOrphanedPDA d a) (checkOrphanedPDA (Props.with_weights d w') a).
Proof.
  intros (_ & _ & Ho & _). unfold checkOrphanedPDA; simpl. q_consts.
  destruct (negb (isPDA a)); simpl; [done|].
  destruct (seeds_missing a); simpl; [lra | done].
Qed.

Lemma checkRentRecoverable_mono (d : GhostDetector Q) w' a minRent :
  Props.weights_le (weights d) w' →
  Props.indicator_le (checkRentRecoverable d a minRent)
                     (checkRentRecoverable (Props.with_weights d w') a minRent).
Proof.
  intros (_ & _ & _ & Hr). unfold checkRentRecoverable; simpl.
  destruct (Z.gtb_spec (lamports a - minRent) 0) as [Hgt|Hle]; simpl; [|done].
  apply Qmult_le_compat_r; [done | apply rent_factor_nonneg; lia].
Qed.

Lemma single_weight_increase_le w w' :
  Props.single_weight_increase w w' → Props.weights_le w w'.
Proof.
  destruct 1; unfold Props.weights_le; simpl; repeat split;
    first [assumption | apply Qle_refl].
Qed.

Lemma confidenceScore_mono (d : GhostDetector Q) w' a minRent :
  Props.weights_le (weights d) w' →
  (confidenceScore (generateRiskProfile d a minRent) <=
   confidenceScore (generateRiskProfile (Props.with_weights d w') a minRent))%Q.
Proof.
  intros Hle. unfold generateRiskProfile; simpl.
  apply Q.min_le_compat_l.
  repeat apply pushIndicator_mono; simpl;
    auto using checkInactivity_mono, checkOrphanedPDA_mono,
               checkRentRecoverable_mono, Qle_refl.
Qed.

(** C6.  With non-negative weights the confidence score lies in
    [0, 100], equals [min(100, sum of the emitted indicator weights)],
    and does not decrease when one configured weight is raised and every
    other input is kept. *)
Theorem confidenceScore_bounded_capped_monotone
    (d : GhostDetector Q) (a : PDAccountInfo) (minRent : Z) :
  Props.nonneg_weights (weights d) →
  (0 <= confidenceScore (generateRiskProfile d a minRent) <= 100)%Q ∧
  (confidenceScore (generateRiskProfile d a minRent) ==
     Qmin 100 (Props.sum_weights (indicators (generateRiskProfile d a minRent))))%Q ∧
  (∀ w', Props.single_weight_increase (weights d) w' →
     (confidenceScore (generateRiskProfile d a minRent) <=
      confidenceScore (generateRiskProfile (Props.with_weights d w') a minRent))%Q).
Proof.
  intros (Hi & _ & Ho & Hr). split; [split|split].
  - unfold generateRiskProfile; simpl. q_consts. apply Q.min_glb; [lra|].
    repeat apply pushIndicator_nonneg; simpl;
      eauto using checkInactivity_nonneg, checkOrphanedPDA_nonneg,
                  checkRentRecoverable_nonneg, Qle_refl.
  - unfold generateRiskProfile; simpl. apply Q.le_min_l.
  - unfold generateRiskProfile; simpl.
    apply Q.min_compat; [reflexivity|].
    repeat apply pushIndicator_total. simpl. reflexivity.
  - intros w' Hw'. apply confidenceScore_mono.
    by apply single_weight_increase_le.
Qed.

(** *** The two concrete scenarios *)

Lemma checkInactivity_unknown_or_stale {num} `{JsNumber num}
    (d : GhostDetector num) a :
  (lastWriteSlot a = None ∨
   ∃ s, lastWriteSlot a = Some s ∧ (currentSlot d - s > inactiveSlotThreshold d)%Z) →
  ∃ r, checkInactivity d a =
         Some {| type := Inactivity; reason := r;
                 weight := nmul (inactivity (weights d)) (of_Z 100) |}.
Proof.
  intros Hcase. unfold checkInactivity, lastWriteSlot_falsy.
  destruct Hcase as [-> | (s & -> & Hgt)]; [by eexists|].
  destruct (Z.eqb s 0); [by eexists|]. simpl.
  destruct (Z.gtb_spec (currentSlot d - s) (inactiveSlotThreshold d)); [by eexists | lia].
Qed.

(** C4, as the code computes it.  Balance 2,000,000, minimum 890,880, no
    known activity, not a PDA, weights 0.3 and 0.2, thresholds
    25/50/75/90: an inactivity indicator of weight 30 and a rent
    indicator of weight 0.2 * ((1,109,120 / 1e9) * 10) = 0.00221824, so
    confidence 30.00221824, level Low, recoverable balance 0. *)
Theorem scenario_unknown_activity
    (cs th : Z) (am op : Q) (a : PDAccountInfo) :
  lamports a = 2000000%Z → lastWriteSlot a = None → isPDA a = false →
  Scenario.emits Qeq
    (generateRiskProfile (Scenario.detectorQ cs th am op) a 890880)
    [ (Inactivity, 30%Q); (RentRecoverable, 221824 # 100000000) ] ∧
  Scenario.scores Qeq
    (generateRiskProfile (Scenario.detectorQ cs th am op) a 890880)
    (3000221824 # 100000000) Low 0.
Proof.
  intros Hl Hs Hpda.
  destruct (checkInactivity_unknown_or_stale (Scenario.detectorQ cs th am op) a)
    as [r Hr]; [by left|].
  unfold Scenario.emits, Scenario.scores, generateRiskProfile.
  rewrite Hr. unfold checkOrphanedPDA, checkRentRecoverable.
  rewrite Hpda, Hl. simpl.
  split; [|by vm_compute].
  repeat constructor; by vm_compute.
Qed.

(** C3, as the code computes it.  The same balance, a last write stale
    beyond the threshold, a PDA without recovered seeds, weights 0.3,
    0.25 and 0.2: indicators of weight 30, 25 and 0.00221824, so
    confidence 55.00221824, which is below the High threshold 75: level
    Medium, recoverable balance 0. *)
Theorem scenario_stale_orphan
    (cs th s : Z) (am : Q) (a : PDAccountInfo) :
  lamports a = 2000000%Z → lastWriteSlot a = Some s → (cs - s > th)%Z →
  isPDA a = true → seeds_missing a = true →
  Scenario.emits Qeq
    (generateRiskProfile (Scenario.detectorQ cs th am (1 # 4)) a 890880)
    [ (Inactivity, 30%Q); (OrphanedPda, 25%Q);
      (RentRecoverable, 221824 # 100000000) ] ∧
  Scenario.scores Qeq
    (generateRiskProfile (Scenario.detectorQ cs th am (1 # 4)) a 890880)
    (5500221824 # 100000000) Medium 0.
Proof.
  intros Hl Hs Hstale Hpda Hseeds.
  destruct (checkInactivity_unknown_or_stale (Scenario.detectorQ cs th am (1 # 4)) a)
    as [r Hr]; [right; by exists s|].
  unfold Scenario.emits, Scenario.scores, generateRiskProfile.
  rewrite Hr. unfold checkOrphanedPDA, checkRentRecoverable.
  rewrite Hpda, Hseeds, Hl. simpl.
  split; [|by vm_compute].
  repeat constructor; by vm_compute.
Qed.

Lemma scenario_unknown_activity_witness :
  Scenario.emits Qeq Scenario.profileUnknownQ
    [ (Inactivity, 30%Q); (RentRecoverable, 221824 # 100000000) ] ∧
  Scenario.scores Qeq Scenario.profileUnknownQ (3000221824 # 100000000) Low 0.
Proof.
  apply (scenario_unknown_activity 1000000 500000 (1 # 4) (1 # 4)
           Scenario.unknownActivity); reflexivity.
Defined.

Lemma scenario_stale_orphan_witness :
  Scenario.emits Qeq Scenario.profileStaleQ
    [ (Inactivity, 30%Q); (OrphanedPda, 25%Q);
      (RentRecoverable, 221824 # 100000000) ] ∧
  Scenario.scores Qeq Scenario.profileStaleQ (5500221824 # 100000000) Medium 0.
Proof.
  apply (scenario_stale_orphan 1000000 500000 1000 (1 # 4) Scenario.staleOrphan);
    [reflexivity | reflexivity | lia | reflexivity | reflexivity].
Defined.

(** Quoted to within 0.2 (let alone to two decimals), the figures of C4
    are not what the code computes: the rent indicator weighs 0.0022,
    not 0.22, and the confidence is 30.0022, not 30.22. *)
Lemma unknown_activity_quoted_figures_wrong :
  ¬ (Scenario.emits (Scenario.approximately (1 # 5)) Scenario.profileUnknownQ
       [ (Inactivity, 30%Q); (RentRecoverable, 22 # 100) ] ∧
     Scenario.scores (Scenario.approximately (1 # 5)) Scenario.profileUnknownQ
       (3022 # 100) Low 0).
Proof.
  intros [_ (Hscore & _)]. revert Hscore.
  unfold Scenario.approximately. vm_compute. intros Hle. by apply Hle.
Qed.

(** The outcome claimed by C3 is not the code's: 55.0022 is not within
    0.2 of 55.22, the level is Medium, and the recoverable balance is 0. *)
Lemma stale_orphan_claimed_outcome_wrong :
  ¬ Scenario.scores (Scenario.approximately (1 # 5)) Scenario.profileStaleQ
      (5522 # 100) High ((2000000 - 890880) / 1000000000).
Proof. intros (_ & Hlevel & _). vm_compute in Hlevel. discriminate. Qed.

(** The two scenarios replayed in binary64 arithmetic. *)
Lemma binary64_unknown_activity :
  map (fun i => (type i, weight i)) (indicators Scenario.profileUnknown64) =
    [ (Inactivity, 30%float); (RentRecoverable, 0.0022182399999999998%float) ] ∧
  confidenceScore Scenario.profileUnknown64 = 30.002218240000001%float ∧
  riskLevel Scenario.profileUnknown64 = Low ∧
  estimatedRecoverableSOL Scenario.profileUnknown64 = 0%float.
Proof. repeat split; reflexivity. Qed.

Lemma binary64_stale_orphan :
  map (fun i => (type i, weight i)) (indicators Scenario.profileStale64) =
    [ (Inactivity, 30%float); (OrphanedPda, 25%float);
      (RentRecoverable, 0.0022182399999999998%float) ] ∧
  confidenceScore Scenario.profileStale64 = 55.002218239999998%float ∧
  riskLevel Scenario.profileStale64 = Medium ∧
  estimatedRecoverableSOL Scenario.profileStale64 = 0%float.
Proof. repeat split; reflexivity. Qed.

(** ** The authority tracker *)

(** A [forEach] that appends to an accumulator yields the concatenation
    of what each element contributes. *)
Lemma foldl_append_concat {A B} (f : A → list B) (l : list A) (init : list B) :
  foldl (fun acc x => acc ++ f x) init l = init ++ concat (map f l).
Proof.
  revert init. induction l as [|x l IH]; intros init; simpl.
  - by rewrite app_nil_r.
  - by rewrite IH, <- app_assoc.
Qed.

Lemma elem_of_concat_map {A B} (f : A → list B) (l : list A) (y : B) :
  y ∈ concat (map f l) ↔ ∃ x, x ∈ l ∧ y ∈ f x.
Proof.
  induction l as [|x l IH]; simpl.
  - rewrite elem_of_nil. split; [done|]. intros (x & Hx & _). by apply elem_of_nil in Hx.
  - rewrite elem_of_app, IH. split.
    + intros [Hy|(x' & Hx' & Hy)]; [exists x | exists x']; split; auto; by constructor.
    + intros (x' & [->|Hx']%elem_of_cons & Hy); [by left | right; eauto].
Qed.

Lemma buildAuthorityRelationships_concat programId accounts :
  AuthorityTracker.buildAuthorityRelationships programId accounts =
    concat (map (AuthorityTracker.relationshipsOf programId) accounts).
Proof. unfold AuthorityTracker.buildAuthorityRelationships. by rewrite foldl_append_concat. Qed.

Lemma relationshipsOf_active programId a rel :
  rel ∈ AuthorityTracker.relationshipsOf programId a → isActive rel = true.
Proof.
  unfold AuthorityTracker.relationshipsOf. rewrite elem_of_app.
  destruct (bool_decide _), (isPDA a && _);
    rewrite ?list_elem_of_singleton, ?elem_of_nil; intros [H|H]; by subst.
Qed.

Lemma buildAuthorityRelationships_active programId accounts rel :
  rel ∈ AuthorityTracker.buildAuthorityRelationships programId accounts →
  isActive rel = true.
Proof.
  rewrite buildAuthorityRelationships_concat.
  induction accounts as [|a accounts IH]; simpl.
  - by rewrite elem_of_nil.
  - rewrite elem_of_app. intros [Ha|Hrest]; [|by apply IH].
    by eapply relationshipsOf_active.
Qed.

(** Every relationship the builder emits is an owner edge of an account
    that is not its own owner, or the signer edge of a PDA with seeds. *)
Lemma buildAuthorityRelationships_elem programId accounts rel :
  rel ∈ AuthorityTracker.buildAuthorityRelationships programId accounts ↔
  ∃ a, a ∈ accounts ∧
    ((owner a ≠ pubkey a ∧
      rel = {| account := pubkey a; authority := owner a;
               privilege := Owner; isActive := true |}) ∨
     (isPDA a = true ∧ is_Some (seeds a) ∧
      rel = {| account := pubkey a; authority := programId;
               privilege := Signer; isActive := true |})).
Proof.
  rewrite buildAuthorityRelationships_concat.
  induction accounts as [|a accounts IH]; simpl.
  - rewrite elem_of_nil. split; [done|]. intros (a & Ha & _). by apply elem_of_nil in Ha.
  - rewrite elem_of_app, IH. clear IH. split.
    + intros [Ha|(b & Hb & Hrel)].
      * exists a. split; [by left|].
        unfold AuthorityTracker.relationshipsOf, AuthorityTracker.seeds_truthy in Ha.
        apply elem_of_app in Ha as [Ha|Ha].
        -- case_bool_decide; [|by apply elem_of_nil in Ha].
           apply list_elem_of_singleton in Ha. by left.
        -- destruct (isPDA a) eqn:Hp, (seeds a) eqn:Hs; simpl in Ha;
             try (by apply elem_of_nil in Ha).
           apply list_elem_of_singleton in Ha. right. eauto.
      * exists b. split; [by right|done].
    + intros (b & Hb & Hrel). apply elem_of_cons in Hb as [->|Hb].
      * left. unfold AuthorityTracker.relationshipsOf, AuthorityTracker.seeds_truthy.
        apply elem_of_app. destruct Hrel as [[Hne ->]|(Hp & [l Hs] & ->)].
        -- left. rewrite bool_decide_eq_true_2 by done. by apply list_elem_of_singleton.
        -- right. rewrite Hp, Hs. simpl. by apply list_elem_of_singleton.
      * right. eauto.
Qed.

(** C7.  [detectLegacyAuthorities] keeps, in order, exactly the
    relationships whose authority is neither the pubkey of an account of
    the set nor the program address; one whose authority is the program
    address is never returned. *)
Theorem detectLegacyAuthorities_exact
    (programId : string) (relationships : list AuthorityRelationship)
    (accounts : list PDAccountInfo) :
  AuthorityTracker.detectLegacyAuthorities programId relationships accounts =
    filter (fun rel => (authority rel ∉ pubkey <$> accounts) ∧ authority rel ≠ programId)
           relationships ∧
  (∀ rel,
     rel ∈ AuthorityTracker.detectLegacyAuthorities programId relationships accounts ↔
     rel ∈ relationships ∧ (authority rel ∉ pubkey <$> accounts) ∧
     authority rel ≠ programId) ∧
  (∀ rel,
     authority rel = programId →
     rel ∉ AuthorityTracker.detectLegacyAuthorities programId relationships accounts).
Proof.
  unfold AuthorityTracker.detectLegacyAuthorities.
  assert (Hiff : ∀ rel : AuthorityRelationship,
    ((authority rel ∉ (list_to_set (pubkey <$> accounts) : gset string)) ∧
      authority rel ≠ programId) ↔
    ((authority rel ∉ pubkey <$> accounts) ∧ authority rel ≠ programId)).
  { intros rel. by rewrite elem_of_list_to_set. }
  split; [by apply list_filter_iff|]. split.
  - intros rel. rewrite list_elem_of_filter, Hiff. tauto.
  - intros rel Heq. rewrite list_elem_of_filter. tauto.
Qed.

Lemma detectLegacyAuthorities_sublist programId relationships accounts :
  sublist (AuthorityTracker.detectLegacyAuthorities programId relationships accounts)
          relationships.
Proof. apply sublist_filter. Qed.

(** C10.  Every relationship built by [buildAuthorityRelationships] is
    active; [detectLegacyAuthorities] returns a sublist of its input,
    the relationships themselves; so the authorities of a scan result
    contain no inactive relationship and the authority section of the
    report never gets its inactive/legacy line. *)
Theorem scan_authorities_all_active
    (programId : string) (accounts : list PDAccountInfo) :
  (∀ rel, rel ∈ AuthorityTracker.buildAuthorityRelationships programId accounts →
          isActive rel = true) ∧
  (∀ relationships accounts',
     sublist (AuthorityTracker.detectLegacyAuthorities programId relationships accounts')
             relationships) ∧
  (∀ rel, rel ∈ ScanCommand.scanResult_authorities programId accounts →
          isActive rel ≠ false) ∧
  ReportGenerator.inactiveAuthorities
    (ScanCommand.scanResult_authorities programId accounts) = [] ∧
  ReportGenerator.authorityAnalysis
    (ScanCommand.scanResult_authorities programId accounts) =
    [ "### 🔐 Authority Analysis"; EmptyString;
      "Total authority relationships tracked: **"
        +:+ pretty (length (ScanCommand.scanResult_authorities programId accounts))
        +:+ "**";
      EmptyString; "---"; EmptyString ].
Proof.
  assert (Hactive : ∀ rel,
    rel ∈ ScanCommand.scanResult_authorities programId accounts → isActive rel = true).
  { intros rel. apply buildAuthorityRelationships_active. }
  assert (Hnone : ReportGenerator.inactiveAuthorities
                    (ScanCommand.scanResult_authorities programId accounts) = []).
  { unfold ReportGenerator.inactiveAuthorities.
    apply elem_of_nil_inv. intros rel [Hf Hin]%list_elem_of_filter.
    apply Hactive in Hin. congruence. }
  split; [exact Hactive|]. split; [intros; apply detectLegacyAuthorities_sublist|].
  split; [intros rel Hin; rewrite (Hactive rel Hin); discriminate|].
  split; [exact Hnone|].
  unfold ReportGenerator.authorityAnalysis. by rewrite Hnone.
Qed.

(** *** Authority chains *)

Lemma foldl_skip_append_concat {A B} (skip : A → bool) (g : A → list B)
    (l : list A) (init : list B) :
  foldl (fun acc x => if skip x then acc else acc ++ g x) init l =
    init ++ concat (map (fun x => if skip x then [] else g x) l).
Proof.
  revert init. induction l as [|x l IH]; intros init; simpl.
  - by rewrite app_nil_r.
  - rewrite IH. destruct (skip x); simpl; [done | by rewrite <- app_assoc].
Qed.

(** One level of [buildChain], with the pushes collected. *)
Lemma buildChain_step relationships n current chain :
  AuthorityTracker.buildChain relationships (S n) current chain =
    if Nat.eqb (length (AuthorityTracker.ownerAuthorities relationships current)) 0
    then [chain]
    else concat (map (fun auth =>
                        if bool_decide (authority auth ∈ chain) then []
                        else AuthorityTracker.buildChain relationships n
                               (authority auth) (chain ++ [authority auth]))
                     (AuthorityTracker.ownerAuthorities relationships current)).
Proof.
  simpl. destruct (Nat.eqb _ 0); [done|].
  by rewrite (foldl_skip_append_concat
                (fun auth => bool_decide (authority auth ∈ chain))).
Qed.

(** Every returned chain extends the chain the exploration started
    from. *)
Lemma buildChain_prefix relationships n current chain c :
  c ∈ AuthorityTracker.buildChain relationships n current chain →
  chain `prefix_of` c.
Proof.
  revert current chain. induction n as [|n IH]; intros current chain.
  - simpl. by intros ->%list_elem_of_singleton.
  - rewrite buildChain_step. destruct (Nat.eqb _ 0).
    + by intros ->%list_elem_of_singleton.
    + intros (auth & _ & Hc)%elem_of_concat_map.
      case_bool_decide; [by apply elem_of_nil in Hc|].
      apply IH in Hc. etrans; [|exact Hc]. by apply prefix_app_r.
Qed.

Lemma buildAuthorityChains_start startAccount relationships maxDepth c :
  c ∈ AuthorityTracker.buildAuthorityChains startAccount relationships maxDepth →
  ∃ rest, c = startAccount :: rest.
Proof.
  intros [rest ->]%buildChain_prefix. by exists rest.
Qed.

(** A branch that ends because no owner edge is left, or because the
    depth is used up, does contribute its chain. *)
Example buildAuthorityChains_dead_end :
  AuthorityTracker.buildAuthorityChains "A"
    [ Sample.ownerEdge "A" "B"; Sample.ownerEdge "A" "C"; Sample.ownerEdge "B" "D" ] 5
  = [ ["A"; "B"; "D"]; ["A"; "C"] ].
Proof. reflexivity. Qed.

Example buildAuthorityChains_depth_limit :
  AuthorityTracker.buildAuthorityChains "A"
    [ Sample.ownerEdge "A" "B"; Sample.ownerEdge "B" "C"; Sample.ownerEdge "C" "D" ] 2
  = [ ["A"; "B"; "C"] ].
Proof. reflexivity. Qed.

(** A branch all of whose owner edges lead back into the chain ends
    without contributing anything. *)
Lemma buildChain_cycle_dropped relationships n current chain :
  AuthorityTracker.ownerAuthorities relationships current ≠ [] →
  (∀ auth, auth ∈ AuthorityTracker.ownerAuthorities relationships current →
           authority auth ∈ chain) →
  AuthorityTracker.buildChain relationships (S n) current chain = [].
Proof.
  intros Hne Hcycle. rewrite buildChain_step.
  destruct (AuthorityTracker.ownerAuthorities relationships current) as [|auth0 auths];
    [done|].
  cbn [length Nat.eqb].
  apply elem_of_nil_inv. intros c (auth & Hauth & Hc)%elem_of_concat_map.
  rewrite bool_decide_eq_true_2 in Hc by (by apply Hcycle).
  by apply elem_of_nil in Hc.
Qed.

(** C9.  Two accounts that own each other: the exploration from "A"
    reaches "B", whose only owner "A" is already in the chain, and the
    branch ends there by cycle detection.  Its chain ["A"; "B"] is not
    pushed: no chain at all is returned. *)
Theorem buildAuthorityChains_cycle_dropped :
  AuthorityTracker.buildAuthorityRelationships "Prog" Sample.mutualOwners =
    [ Sample.ownerEdge "A" "B"; Sample.ownerEdge "B" "A" ] ∧
  AuthorityTracker.buildAuthorityChains "A"
    [ Sample.ownerEdge "A" "B"; Sample.ownerEdge "B" "A" ] 5 = [].
Proof. split; reflexivity. Qed.

(** ** Graph filtering *)

(** *** The stable sort *)

Lemma sort_insert_perm {A} (cmp : A → A → Q) x l :
  GraphBuilder.sort_insert cmp x l ≡ₚ x :: l.
Proof.
  induction l as [|y l IH]; simpl; [done|].
  destruct (Qle_bool (cmp x y) 0); [done|].
  rewrite IH. apply perm_swap.
Qed.

Lemma Array_sort_perm {A} (cmp : A → A → Q) l :
  GraphBuilder.Array_sort cmp l ≡ₚ l.
Proof.
  induction l as [|x l IH]; simpl; [done|].
  by rewrite sort_insert_perm, IH.
Qed.

Lemma Array_sort_length {A} (cmp : A → A → Q) l :
  length (GraphBuilder.Array_sort cmp l) = length l.
Proof. by rewrite Array_sort_perm. Qed.

(** [compareByRisk a b <= 0] says that [b] does not outscore [a]. *)
Lemma compareByRisk_le a b :
  Qle_bool (GraphBuilder.compareByRisk a b) 0 = true ↔
  (GraphBuilder.scoreOf b <= GraphBuilder.scoreOf a)%Q.
Proof. rewrite Qle_bool_iff. unfold GraphBuilder.compareByRisk. split; lra. Qed.

Lemma compareByRisk_gt a b :
  Qle_bool (GraphBuilder.compareByRisk a b) 0 = false ↔
  (GraphBuilder.scoreOf a < GraphBuilder.scoreOf b)%Q.
Proof.
  rewrite <- not_true_iff_false, compareByRisk_le. split; [apply Qnot_le_lt|].
  intros Hlt Hle. by apply (Qlt_not_le _ _ Hlt).
Qed.

Lemma sort_insert_sorted x l :
  StronglySorted (fun a b => (GraphBuilder.scoreOf b <= GraphBuilder.scoreOf a)%Q) l →
  StronglySorted (fun a b => (GraphBuilder.scoreOf b <= GraphBuilder.scoreOf a)%Q)
                 (GraphBuilder.sort_insert GraphBuilder.compareByRisk x l).
Proof.
  induction 1 as [|y l Hsorted IH Hy]; simpl.
  - repeat constructor.
  - destruct (Qle_bool (GraphBuilder.compareByRisk x y) 0) eqn:Hcmp.
    + apply compareByRisk_le in Hcmp.
      constructor; [by constructor|]. constructor; [done|].
      eapply Forall_impl; [exact Hy|]. simpl. intros z Hz.
      by apply Qle_trans with (GraphBuilder.scoreOf y).
    + apply compareByRisk_gt in Hcmp.
      constructor; [done|]. rewrite sort_insert_perm.
      constructor; [by apply Qlt_le_weak | done].
Qed.

Lemma Array_sort_sorted l :
  StronglySorted (fun a b => (GraphBuilder.scoreOf b <= GraphBuilder.scoreOf a)%Q)
                 (GraphBuilder.Array_sort GraphBuilder.compareByRisk l).
Proof.
  induction l as [|x l IH]; simpl; [constructor | by apply sort_insert_sorted].
Qed.

(** Insertion only moves [x] past nodes of strictly higher score, so the
    nodes of any one score keep their order. *)
Lemma sort_insert_stable (s : Q) x l :
  filter (fun n => (GraphBuilder.scoreOf n == s)%Q)
         (GraphBuilder.sort_insert GraphBuilder.compareByRisk x l) =
  filter (fun n => (GraphBuilder.scoreOf n == s)%Q) (x :: l).
Proof.
  induction l as [|y l IH]; simpl; [done|].
  destruct (Qle_bool (GraphBuilder.compareByRisk x y) 0) eqn:Hcmp; [done|].
  apply compareByRisk_gt in Hcmp.
  rewrite !filter_cons in *. rewrite IH.
  destruct (decide (GraphBuilder.scoreOf y == s)%Q) as [Hy|Hy];
    destruct (decide (GraphBuilder.scoreOf x == s)%Q) as [Hx|Hx]; try done.
  rewrite Hx, Hy in Hcmp. by apply Qlt_irrefl in Hcmp.
Qed.

Lemma Array_sort_stable (s : Q) l :
  filter (fun n => (GraphBuilder.scoreOf n == s)%Q)
         (GraphBuilder.Array_sort GraphBuilder.compareByRisk l) =
  filter (fun n => (GraphBuilder.scoreOf n == s)%Q) l.
Proof.
  induction l as [|x l IH]; simpl; [done|].
  rewrite sort_insert_stable, !filter_cons, IH. done.
Qed.

Lemma Array_sort_ranked l :
  Props.ranked_by_risk l (GraphBuilder.Array_sort GraphBuilder.compareByRisk l).
Proof.
  split; [apply Array_sort_perm|]. split; [apply Array_sort_sorted|].
  intros s. apply Array_sort_stable.
Qed.

(** The three conditions of [ranked_by_risk] leave no choice: a ranking
    of given nodes is unique. *)
Lemma ranking_unique (l1 l2 : list AccountGraphNode) :
  StronglySorted (fun a b => (GraphBuilder.scoreOf b <= GraphBuilder.scoreOf a)%Q) l1 →
  StronglySorted (fun a b => (GraphBuilder.scoreOf b <= GraphBuilder.scoreOf a)%Q) l2 →
  l1 ≡ₚ l2 →
  (∀ s : Q, filter (fun n => (GraphBuilder.scoreOf n == s)%Q) l1 =
            filter (fun n => (GraphBuilder.scoreOf n == s)%Q) l2) →
  l1 = l2.
Proof.
  intros Hs1. revert l2.
  induction Hs1 as [|x l1 Hs1 IH Hx]; intros l2 Hs2 Hperm Hfilter.
  - by apply Permutation_nil in Hperm.
  - destruct Hs2 as [|y l2 Hs2 Hy].
    { symmetry in Hperm. by apply Permutation_nil_cons in Hperm. }
    assert (Hyx : (GraphBuilder.scoreOf y <= GraphBuilder.scoreOf x)%Q).
    { assert (Hin : y ∈ x :: l1) by (rewrite Hperm; by left).
      apply elem_of_cons in Hin as [->|Hin]; [apply Qle_refl|].
      by apply (proj1 (Forall_forall _ _) Hx). }
    assert (Hxy : (GraphBuilder.scoreOf x <= GraphBuilder.scoreOf y)%Q).
    { assert (Hin : x ∈ y :: l2) by (rewrite <- Hperm; by left).
      apply elem_of_cons in Hin as [->|Hin]; [apply Qle_refl|].
      by apply (proj1 (Forall_forall _ _) Hy). }
    assert (Heq : (GraphBuilder.scoreOf y == GraphBuilder.scoreOf x)%Q)
      by (by apply Qle_antisym).
    pose proof (Hfilter (GraphBuilder.scoreOf x)) as Hhead.
    rewrite !filter_cons in Hhead.
    rewrite decide_True in Hhead by reflexivity.
    rewrite decide_True in Hhead by exact Heq.
    injection Hhead as <- _.
    f_equal. apply IH; [done | by apply Permutation_cons_inv in Hperm|].
    intros s. specialize (Hfilter s). rewrite !filter_cons in Hfilter.
    destruct (decide (GraphBuilder.scoreOf x == s)%Q); [by injection Hfilter | done].
Qed.

Lemma ranked_by_risk_unique others r1 r2 :
  Props.ranked_by_risk others r1 → Props.ranked_by_risk others r2 → r1 = r2.
Proof.
  intros (Hp1 & Hs1 & Hf1) (Hp2 & Hs2 & Hf2).
  apply ranking_unique; [done | done | by rewrite Hp1, Hp2 |].
  intros s. by rewrite Hf1, Hf2.
Qed.

(** *** Filtering *)

Lemma find_program_node (G : AccountGraph) :
  Props.one_program_node G →
  ∃ p, List.find (fun n => bool_decide (node_type n = Program)) (nodes G) = Some p ∧
       node_type p = Program ∧ p ∈ nodes G.
Proof.
  unfold Props.one_program_node. intros Hone.
  destruct (List.find _ (nodes G)) as [p|] eqn:Hfind.
  - apply find_some in Hfind as [Hin Hp]. exists p.
    split; [done|]. split; [by apply bool_decide_eq_true in Hp|].
    by apply list_elem_of_In.
  - exfalso. assert (Hnil : filter (fun n => node_type n = Program) (nodes G) = []).
    { apply elem_of_nil_inv. intros n [Hn Hin]%list_elem_of_filter.
      apply list_elem_of_In in Hin.
      pose proof (find_none _ _ Hfind n Hin) as Hnone. simpl in Hnone.
      by apply bool_decide_eq_false in Hnone. }
    by rewrite Hnil in Hone.
Qed.

Lemma other_nodes_length (G : AccountGraph) :
  Props.one_program_node G →
  S (length (filter (fun n => node_type n ≠ Program) (nodes G))) = length (nodes G).
Proof.
  unfold Props.one_program_node. intros Hone.
  rewrite <- (filter_app_complement (fun n => node_type n = Program) (nodes G)) at 2.
  by rewrite length_app, Hone.
Qed.

(** With a cap [e] from 0 to the length, [slice(0, e)] is the first [e]
    elements. *)
Lemma Array_slice0_take {A} (l : list A) (e : Z) :
  (0 <= e <= Z.of_nat (length l))%Z →
  GraphBuilder.Array_slice0 l e = take (Z.to_nat e) l.
Proof.
  intros [H0 Hle]. unfold GraphBuilder.Array_slice0.
  destruct (Z.ltb_spec e 0); [lia|]. by rewrite Z.min_l.
Qed.

(** The edges kept are those of the graph whose two endpoints are ids
    of retained nodes. *)
Lemma filterGraphForVisualization_edges G C b G' :
  GraphBuilder.filterGraphForVisualization G C b = Some G' →
  (Z.of_nat (length (nodes G)) <= C)%Z ∨
  ∀ e, e ∈ edges G' ↔
       e ∈ edges G ∧ source e ∈ node_id <$> nodes G' ∧ target e ∈ node_id <$> nodes G'.
Proof.
  unfold GraphBuilder.filterGraphForVisualization.
  destruct (Z.leb_spec (Z.of_nat (length (nodes G))) C) as [Hle|Hgt]; [by left|].
  destruct (List.find _ _) as [p|]; [|done]. intros [= <-]. right.
  cbn [edges nodes]. intros e.
  rewrite list_elem_of_filter, ?fmap_cons, ?elem_of_union, ?elem_of_singleton,
    ?elem_of_list_to_set, ?elem_of_cons.
  tauto.
Qed.

(** C2, for a cap of at least 1.  A graph with its one program node and
    at most [C] nodes is returned as it is.  A larger one is cut to
    exactly [C] nodes: the program node, then the first [C - 1] of the
    other nodes ranked by descending confidence score with ties in
    original order; and every edge kept joins two retained nodes. *)
Theorem filterGraphForVisualization_spec (G : AccountGraph) (C : Z) :
  Props.one_program_node G → (1 <= C)%Z → Props.filtered_as_specified G C.
Proof.
  intros Hone HC. split.
  - intros Hle. unfold GraphBuilder.filterGraphForVisualization_cap,
      GraphBuilder.filterGraphForVisualization.
    by destruct (Z.leb_spec (Z.of_nat (length (nodes G))) C); [|lia].
  - intros Hgt.
    destruct (find_program_node G Hone) as (p & Hfind & Hp & Hin).
    pose proof (other_nodes_length G Hone) as Hlen.
    set (others := filter (fun n => node_type n ≠ Program) (nodes G)) in *.
    set (ranked := GraphBuilder.Array_sort GraphBuilder.compareByRisk others).
    assert (Hslice : GraphBuilder.Array_slice0 ranked (C - 1) =
                     take (Z.to_nat (C - 1)) ranked).
    { apply Array_slice0_take. unfold ranked. rewrite Array_sort_length. lia. }
    assert (Hrun : GraphBuilder.filterGraphForVisualization_cap G C =
      Some {| nodes := p :: take (Z.to_nat (C - 1)) ranked;
              edges := filter (fun e =>
                         source e ∈ (list_to_set
                           (node_id <$> p :: take (Z.to_nat (C - 1)) ranked) : gset string) ∧
                         target e ∈ (list_to_set
                           (node_id <$> p :: take (Z.to_nat (C - 1)) ranked) : gset string))
                         (edges G);
              programId := programId G;
              scanTimestamp := scanTimestamp G;
              graph_currentSlot := graph_currentSlot G |}).
    { unfold GraphBuilder.filterGraphForVisualization_cap,
        GraphBuilder.filterGraphForVisualization.
      destruct (Z.leb_spec (Z.of_nat (length (nodes G))) C); [lia|].
      rewrite Hfind. fold others. fold ranked. by rewrite Hslice. }
    eexists _, p. split; [exact Hrun|]. cbn [edges nodes].
    split; [done|]. split; [done|]. split; [by left|]. split.
    { cbn [length]. rewrite length_take_le; [lia|].
      unfold ranked. rewrite Array_sort_length. lia. }
    split.
    { eexists. split; [done|]. exists ranked. split; [apply Array_sort_ranked | done]. }
    intros e [[Hs Ht] _]%list_elem_of_filter.
    by rewrite !elem_of_list_to_set in Hs, Ht.
Qed.

(** The cap 0 cannot be met: the program node is always kept. *)
Lemma filterGraphForVisualization_cap_zero :
  Props.one_program_node Sample.smallGraph ∧
  ¬ Props.filtered_as_specified Sample.smallGraph 0.
Proof.
  split; [reflexivity|]. intros [_ Hcut].
  destruct Hcut as (G' & p & Hrun & _ & _ & _ & Hlen & _); [simpl; lia|].
  vm_compute in Hrun. injection Hrun as <-. simpl in Hlen. lia.
Qed.

Lemma filterGraphForVisualization_spec_witness :
  Props.filtered_as_specified Sample.fiveNodeGraph 3.
Proof.
  apply (filterGraphForVisualization_spec Sample.fiveNodeGraph 3); [reflexivity | lia].
Defined.

(** Three of the five nodes are kept: the program node, then "D" (80)
    and "B" (55); the edges to "A" and "C" go. *)
Example filterGraphForVisualization_five_nodes :
  (fun g => (node_id <$> nodes g, (fun e => (source e, target e)) <$> edges g)) <$>
    GraphBuilder.filterGraphForVisualization_cap Sample.fiveNodeGraph 3 =
  Some (["Prog"; "D"; "B"], [("Prog", "B"); ("Prog", "D"); ("D", "B")]).
Proof. by vm_compute. Qed.

(** Nodes of equal score keep their order: "A" stays ahead of "C". *)
Example filterGraphForVisualization_ties :
  (fun g => node_id <$> nodes g) <$>
    GraphBuilder.filterGraphForVisualization_cap Sample.fiveNodeGraph 4 =
  Some ["Prog"; "D"; "B"; "A"].
Proof. by vm_compute. Qed.

(** ** Seed recovery *)

Section SeedRecovery.
Context {PublicKey : Type} `{EqDecision PublicKey}.
Variable PublicKey_new : string → option PublicKey.
Variable isOnCurve : PublicKey → bool.
Variable findProgramAddress :
  list (list Byte.byte) → PublicKey → option (PublicKey * Z).
Variable programId : PublicKey.

Local Abbreviation tryDerivation := (PDADetector.tryDerivation findProgramAddress programId).
Local Abbreviation bumpLoop := (PDADetector.bumpLoop findProgramAddress programId).
Local Abbreviation patternLoop := (PDADetector.patternLoop findProgramAddress programId).
Local Abbreviation attemptCommonDerivations :=
  (PDADetector.attemptCommonDerivations findProgramAddress programId).
Local Abbreviation derives := (Props.derives findProgramAddress programId).
Local Abbreviation firstMatch := (Props.firstMatch findProgramAddress programId).

Lemma tryDerivation_Some target p b r :
  tryDerivation target p b = Some r ↔
  derives p b target ∧ r = {| derivation_seeds := p; derivation_bump := b |}.
Proof.
  unfold PDADetector.tryDerivation, Props.derives.
  destruct (findProgramAddress _ _) as [[derived nonce]|].
  - destruct (decide (derived = target)) as [->|Hne].
    + split; [intros [= <-]; eauto | by intros [_ ->]].
    + split; [done|]. by intros [[nonce' [= ? ?]] _].
  - split; [done|]. by intros [[nonce' ?] _].
Qed.

Lemma tryDerivation_None target p b :
  tryDerivation target p b = None ↔ ¬ derives p b target.
Proof.
  destruct (tryDerivation target p b) as [r|] eqn:Htry.
  - apply tryDerivation_Some in Htry as [Hd _]. split; [done|]. by intros [].
  - split; [|done]. intros _ Hd.
    assert (Hsome : tryDerivation target p b =
              Some {| derivation_seeds := p; derivation_bump := b |})
      by (by apply tryDerivation_Some).
    congruence.
Qed.

Lemma bumpsDown_S n :
  Props.bumpsDown (S n) = Z.of_nat (S n) :: Props.bumpsDown n.
Proof.
  unfold Props.bumpsDown.
  by rewrite (seq_S (S n)), rev_app_distr.
Qed.

Lemma elem_of_bumpsDown n b :
  b ∈ Props.bumpsDown n ↔ (0 <= b <= Z.of_nat n)%Z.
Proof.
  unfold Props.bumpsDown. rewrite list_elem_of_fmap. split.
  - intros (k & -> & Hk). apply list_elem_of_In, in_rev, in_seq in Hk. lia.
  - intros Hb. exists (Z.to_nat b). split; [lia|].
    apply list_elem_of_In. rewrite <- in_rev. apply in_seq. lia.
Qed.

(** The inner loop tries the bumps from [n] down to 0 in this order. *)
Lemma bumpLoop_firstMatch target p n :
  bumpLoop target p n = firstMatch target ((fun b => (p, b)) <$> Props.bumpsDown n).
Proof.
  induction n as [|n IH].
  - simpl. by destruct (tryDerivation target p 0).
  - rewrite bumpsDown_S, fmap_cons.
    cbn [PDADetector.bumpLoop Props.firstMatch].
    destruct (tryDerivation target p (Z.of_nat (S n))); [done | exact IH].
Qed.

Lemma firstMatch_app target l1 l2 :
  firstMatch target (l1 ++ l2) =
    match firstMatch target l1 with
    | Some r => Some r
    | None => firstMatch target l2
    end.
Proof.
  induction l1 as [|[p b] l1 IH]; simpl; [done|].
  by destruct (tryDerivation target p b).
Qed.

Lemma patternLoop_firstMatch target patterns :
  patternLoop target patterns =
    firstMatch target
      (flat_map (fun p => (fun b => (p, b)) <$> Props.bumpsDown 255) patterns).
Proof.
  induction patterns as [|p patterns IH]; [done|].
  cbn [PDADetector.patternLoop flat_map].
  by rewrite firstMatch_app, bumpLoop_firstMatch, IH.
Qed.

(** The search returns the first attempt, in search order, that
    derives the target. *)
Lemma attemptCommonDerivations_firstMatch target :
  attemptCommonDerivations target = firstMatch target Props.searchOrder.
Proof. apply patternLoop_firstMatch. Qed.

Lemma elem_of_searchOrder p b :
  (p, b) ∈ Props.searchOrder ↔ p ∈ PDADetector.commonSeeds ∧ (0 <= b <= 255)%Z.
Proof.
  unfold Props.searchOrder.
  rewrite list_elem_of_In, in_flat_map. setoid_rewrite <- list_elem_of_In.
  setoid_rewrite list_elem_of_fmap. split.
  - intros (p' & Hp' & b' & [= -> ->] & Hb'). by apply elem_of_bumpsDown in Hb'.
  - intros [Hp Hb]. exists p. split; [done|]. exists b. split; [done|].
    by apply elem_of_bumpsDown.
Qed.

(** Among attempts that are free of collisions, the first match for an
    address derived by one of them is that very attempt. *)
Lemma firstMatch_recovers target attempts p b :
  (∀ p' b', (p', b') ∈ attempts → derives p' b' target → p' = p ∧ b' = b) →
  (p, b) ∈ attempts → derives p b target →
  firstMatch target attempts =
    Some {| derivation_seeds := p; derivation_bump := b |}.
Proof.
  intros Huniq Hin Hd.
  induction attempts as [|[p' b'] attempts IH]; [by apply elem_of_nil in Hin|].
  simpl. destruct (tryDerivation target p' b') as [r|] eqn:Htry.
  - apply tryDerivation_Some in Htry as [Hd' ->].
    destruct (Huniq p' b') as [-> ->]; [by left | done | done].
  - apply tryDerivation_None in Htry.
    apply elem_of_cons in Hin as [[= -> ->]|Hin]; [done|].
    apply IH; [|done]. intros p'' b'' Hin''. apply Huniq. by right.
Qed.

(** Without any assumption on the derivation function: an attempt that
    derives the target is returned when no attempt made before it does,
    and an earlier attempt that derives the target takes its place. *)
Lemma firstMatch_none_before target before p b after :
  (∀ p' b', (p', b') ∈ before → ¬ derives p' b' target) →
  derives p b target →
  firstMatch target (before ++ (p, b) :: after) =
    Some {| derivation_seeds := p; derivation_bump := b |}.
Proof.
  intros Hnone Hd. rewrite firstMatch_app.
  assert (Hbefore : firstMatch target before = None).
  { induction before as [|[p' b'] before IH]; [done|]. simpl.
    rewrite (proj2 (tryDerivation_None target p' b')) by (apply Hnone; by left).
    apply IH. intros p'' b'' Hin. apply Hnone. by right. }
  rewrite Hbefore. simpl.
  assert (Htry : tryDerivation target p b =
            Some {| derivation_seeds := p; derivation_bump := b |})
    by (by apply tryDerivation_Some).
  by rewrite Htry.
Qed.

Lemma firstMatch_some_before target before rest p b :
  (p, b) ∈ before → derives p b target →
  ∃ p' b', (p', b') ∈ before ∧ derives p' b' target ∧
    firstMatch target (before ++ rest) =
      Some {| derivation_seeds := p'; derivation_bump := b' |}.
Proof.
  intros Hin Hd. induction before as [|[p0 b0] before IH];
    [by apply elem_of_nil in Hin|].
  simpl. destruct (tryDerivation target p0 b0) as [r|] eqn:Htry.
  - apply tryDerivation_Some in Htry as [Hd0 ->].
    exists p0, b0. split; [by left | done].
  - apply tryDerivation_None in Htry.
    apply elem_of_cons in Hin as [[= -> ->]|Hin]; [done|].
    destruct (IH Hin) as (p' & b' & Hin' & Hd' & Hfound).
    exists p', b'. split; [by right | done].
Qed.

Lemma attemptCommonDerivations_recovers p b target :
  Props.collision_free findProgramAddress programId →
  p ∈ PDADetector.commonSeeds → (0 <= b <= 255)%Z → derives p b target →
  attemptCommonDerivations target =
    Some {| derivation_seeds := p; derivation_bump := b |}.
Proof.
  intros Hfree Hp Hb Hd. rewrite attemptCommonDerivations_firstMatch.
  apply firstMatch_recovers; [|by apply elem_of_searchOrder | done].
  intros p' b' [Hp' Hb']%elem_of_searchOrder Hd'.
  by apply (Hfree p' p b' b target).
Qed.

(** C8.  Whatever the derivation function, the search returns the first
    match of its attempts, made for the catalogue in order with bumps
    from 255 down to 0: the attempt that derives the target while no
    attempt made before it does is the one returned, also when a later
    attempt derives the target too.  Hence the round trip: take a
    pattern of the catalogue, a bump from 0 to 255 and the address
    derived from them by the derivation function the classifier calls,
    and assume that the attempts of the search do not collide; the
    search returns exactly this pattern and bump, and classifying an
    account at this address (which is off the curve, as derived
    addresses are) records them. *)
Theorem seed_recovery_round_trip :
  (∀ target,
     attemptCommonDerivations target = firstMatch target Props.searchOrder) ∧
  (∀ target before seedPattern b after,
     Props.searchOrder = before ++ (seedPattern, b) :: after →
     (∀ p' b', (p', b') ∈ before → ¬ derives p' b' target) →
     derives seedPattern b target →
     attemptCommonDerivations target =
       Some {| derivation_seeds := seedPattern; derivation_bump := b |}) ∧
  (∀ (seedPattern : list string) (b : Z) (target : PublicKey) (a : AccountInfo),
     Props.collision_free findProgramAddress programId →
     seedPattern ∈ PDADetector.commonSeeds → (0 <= b <= 255)%Z →
     derives seedPattern b target →
     PublicKey_new (ai_pubkey a) = Some target → isOnCurve target = false →
     attemptCommonDerivations target =
       Some {| derivation_seeds := seedPattern; derivation_bump := b |} ∧
     ∃ classified,
       PDADetector.analyzePDA PublicKey_new isOnCurve findProgramAddress programId a
         = Some classified ∧
       isPDA classified = true ∧
       seeds classified = Some seedPattern ∧
       bump classified = Some b).
Proof.
  split; [apply attemptCommonDerivations_firstMatch|]. split.
  - intros target before seedPattern b after Horder Hnone Hd.
    rewrite attemptCommonDerivations_firstMatch, Horder.
    by apply firstMatch_none_before.
  - intros seedPattern b target a Hfree Hp Hb Hd Hkey Hcurve.
    pose proof (attemptCommonDerivations_recovers seedPattern b target Hfree Hp Hb Hd)
      as Hfound.
    split; [exact Hfound|].
    unfold PDADetector.analyzePDA. rewrite Hkey, Hcurve. cbn [negb].
    rewrite Hfound. eexists. split; [reflexivity|]. by cbn.
Qed.
End SeedRecovery.

(** *** The stand-in key library is free of collisions *)

Lemma commonSeeds_single p :
  p ∈ PDADetector.commonSeeds → ∃ label, p = [label].
Proof.
  unfold PDADetector.commonSeeds. rewrite !elem_of_cons, elem_of_nil.
  intros H. repeat (destruct H as [->|H]; [by eexists|]). done.
Qed.

Lemma Buffer_from_inj l l' :
  PDADetector.Buffer_from l = PDADetector.Buffer_from l' → l = l'.
Proof.
  unfold PDADetector.Buffer_from. intros Heq.
  by rewrite <- (String.string_of_list_byte_of_string l),
             <- (String.string_of_list_byte_of_string l'), Heq.
Qed.

Lemma Buffer_from_byte_single b :
  (0 <= b <= 255)%Z →
  ∃ x, PDADetector.Buffer_from_byte b = [x] ∧ Byte.to_N x = Z.to_N b.
Proof.
  intros Hb. unfold PDADetector.Buffer_from_byte.
  rewrite Z.mod_small by lia.
  destruct (Byte.of_N (Z.to_N b)) as [x|] eqn:Hx.
  - exists x. split; [done | by apply Byte.to_of_N].
  - apply Byte.of_N_None_iff in Hx. lia.
Qed.

Lemma textKey_collision_free programId :
  Props.collision_free Sample.textKey_findProgramAddress programId.
Proof.
  intros p p' b b' a [l ->]%commonSeeds_single [l' ->]%commonSeeds_single Hb Hb'.
  unfold Props.derives, Sample.textKey_findProgramAddress, PDADetector.seedBuffers.
  intros [n [= <- _]] [n' [= Heq _]].
  apply (inj (String.app programId)) in Heq.
  apply (f_equal String.list_byte_of_string) in Heq.
  rewrite !String.list_byte_of_string_of_list_byte in Heq.
  destruct (Buffer_from_byte_single b Hb) as (x & Hx & Hxb).
  destruct (Buffer_from_byte_single b' Hb') as (x' & Hx' & Hxb').
  rewrite Hx, Hx' in Heq. cbn [map concat app] in Heq.
  rewrite ?app_nil_r in Heq.
  apply app_inj_tail in Heq as [Hl Hxx].
  apply Buffer_from_inj in Hl. subst. split; [done|]. lia.
Qed.

Lemma seed_recovery_round_trip_witness :
  PDADetector.attemptCommonDerivations Sample.textKey_findProgramAddress "Prog"
    Sample.vaultAddress =
    Props.firstMatch Sample.textKey_findProgramAddress "Prog"
      Sample.vaultAddress (Props.searchOrder) ∧
  PDADetector.attemptCommonDerivations Sample.textKey_findProgramAddress "Prog"
    Sample.vaultAddress =
    Some {| derivation_seeds := ["vault"]; derivation_bump := 7 |} ∧
  ∃ classified,
    PDADetector.analyzePDA Sample.textKey_new Sample.textKey_isOnCurve
      Sample.textKey_findProgramAddress "Prog" Sample.vaultAccount = Some classified ∧
    isPDA classified = true ∧
    seeds classified = Some ["vault"] ∧
    bump classified = Some 7%Z.
Proof.
  destruct (seed_recovery_round_trip Sample.textKey_new Sample.textKey_isOnCurve
              Sample.textKey_findProgramAddress "Prog") as (Horder & _ & Hround).
  split; [apply Horder|].
  apply (Hround ["vault"] 7%Z Sample.vaultAddress Sample.vaultAccount).
  - apply textKey_collision_free.
  - unfold PDADetector.commonSeeds. rewrite !elem_of_cons. tauto.
  - lia.
  - by exists 255%Z.
  - reflexivity.
  - reflexivity.
Defined.

(** When all attempts derive the target, the one made first is returned:
    the first pattern of the catalogue with bump 255. *)
Example search_returns_first_of_colliding :
  PDADetector.attemptCommonDerivations Sample.sameKey_findProgramAddress "Prog" "X" =
    Some {| derivation_seeds := ["metadata"]; derivation_bump := 255 |}.
Proof. by vm_compute. Qed.

(** The search run on the stand-in library. *)
Example attemptCommonDerivations_vault :
  PDADetector.attemptCommonDerivations Sample.textKey_findProgramAddress "Prog"
    Sample.vaultAddress =
  Some {| derivation_seeds := ["vault"]; derivation_bump := 7 |}.
Proof. by vm_compute. Qed.

(** ** Graphs built by the scan *)

(** [buildGraph] creates exactly one program node, so the graphs the
    scan filters meet the condition of the filtering theorem. *)
Lemma buildGraph_one_program_node programId currentSlot now accounts profiles authorities :
  Props.one_program_node
    (GraphBuilder.buildGraph programId currentSlot now accounts profiles authorities).
Proof.
  unfold Props.one_program_node, GraphBuilder.buildGraph, GraphBuilder.buildNodes.
  cbn [nodes]. rewrite filter_cons, decide_True by done. cbn [length]. f_equal.
  induction accounts as [|a accounts IH]; [done|].
  cbn [map]. rewrite filter_cons, decide_False; [exact IH|].
  cbn [node_type]. by destruct (isPDA a).
Qed.

Lemma confidenceScore_bounded_capped_monotone_witness :
  (0 <= confidenceScore Scenario.profileStaleQ <= 100)%Q ∧
  (confidenceScore Scenario.profileStaleQ ==
     Qmin 100 (Props.sum_weights (indicators Scenario.profileStaleQ)))%Q ∧
  (confidenceScore Scenario.profileStaleQ <=
   confidenceScore
     (generateRiskProfile
        (Props.with_weights (Scenario.detectorQ 1000000 500000 (1 # 4) (1 # 4))
           {| inactivity := 1 # 2; authorityMismatch := 1 # 4;
              orphanedPda := 1 # 4; rentRecoverable := 2 # 10 |})
        Scenario.staleOrphan Scenario.minRentExemption))%Q.
Proof.
  destruct (confidenceScore_bounded_capped_monotone
              (Scenario.detectorQ 1000000 500000 (1 # 4) (1 # 4))
              Scenario.staleOrphan Scenario.minRentExemption)
    as (Hrange & Hcap & Hmono).
  - unfold Props.nonneg_weights. simpl. repeat split; lra.
  - split; [exact Hrange|]. split; [exact Hcap|].
    apply (Hmono {| inactivity := 1 # 2; authorityMismatch := 1 # 4;
                    orphanedPda := 1 # 4; rentRecoverable := 2 # 10 |}).
    apply (Props.incr_inactivity
             (weights (Scenario.detectorQ 1000000 500000 (1 # 4) (1 # 4))) (1 # 2)).
    simpl. lra.
Defined.


(** * Further properties of the code *)

(** ** Risk levels and the summary *)

Lemma Qle_bool_trans_r (t s s' : Q) :
  (s <= s')%Q → Qle_bool t s = true → Qle_bool t s' = true.
Proof.
  rewrite !Qle_bool_iff. intros Hss Hts. by apply Qle_trans with s.
Qed.

Lemma level_of_score_mono (d : GhostDetector Q) (s s' : Q) :
  (s <= s')%Q →
  Props.level_le (determineRiskLevel d s) (determineRiskLevel d s').
Proof.
  intros Hss. unfold determineRiskLevel, Props.level_le. cbn [ngeb Q_JsNumber].
  destruct (Qle_bool (critical (thresholds d)) s) eqn:Hc.
  { rewrite (Qle_bool_trans_r _ _ _ Hss Hc). done. }
  destruct (Qle_bool (high (thresholds d)) s) eqn:Hh.
  { rewrite (Qle_bool_trans_r _ _ _ Hss Hh).
    destruct (Qle_bool (critical (thresholds d)) s'); simpl; lia. }
  destruct (Qle_bool (medium (thresholds d)) s) eqn:Hm.
  { rewrite (Qle_bool_trans_r _ _ _ Hss Hm).
    destruct (Qle_bool (critical (thresholds d)) s'),
             (Qle_bool (high (thresholds d)) s'); simpl; lia. }
  simpl. lia.
Qed.

(** X1.  A higher confidence score never gives a lower risk level,
    whatever the configured thresholds are (ordered or not); hence
    raising one configured weight, with everything else kept, never
    lowers the risk level of an account. *)
Theorem riskLevel_monotone (d : GhostDetector Q) :
  (∀ s s', (s <= s')%Q →
     Props.level_le (determineRiskLevel d s) (determineRiskLevel d s')) ∧
  (∀ a minRent w',
     Props.single_weight_increase (weights d) w' →
     Props.level_le
       (riskLevel (generateRiskProfile d a minRent))
       (riskLevel (generateRiskProfile (Props.with_weights d w') a minRent))).
Proof.
  split; [apply level_of_score_mono|].
  intros a minRent w' Hinc.
  pose proof (confidenceScore_mono d w' a minRent (single_weight_increase_le _ _ Hinc))
    as Hscore.
  cbn [riskLevel generateRiskProfile] in *.
  assert (Hsame : ∀ s, determineRiskLevel (Props.with_weights d w') s =
                       determineRiskLevel d s) by reflexivity.
  rewrite Hsame. by apply level_of_score_mono.
Qed.

(** X2.  The weight [authorityMismatch] and the threshold [low] are
    never read: changing them changes nothing in the profile.  The
    indicators of a profile are, in this order, at most one inactivity,
    one orphaned-PDA and one rent-recoverable indicator. *)
Theorem profile_ignores_authorityMismatch_and_low {num} `{JsNumber num}
    (d : GhostDetector num) (a : PDAccountInfo) (minRent : Z) (x y : num) :
  generateRiskProfile
    {| currentSlot := currentSlot d;
       inactiveSlotThreshold := inactiveSlotThreshold d;
       weights := {| inactivity := inactivity (weights d);
                     authorityMismatch := x;
                     orphanedPda := orphanedPda (weights d);
                     rentRecoverable := rentRecoverable (weights d) |};
       thresholds := {| low := y;
                        medium := medium (thresholds d);
                        high := high (thresholds d);
                        critical := critical (thresholds d) |} |} a minRent
  = generateRiskProfile d a minRent ∧
  sublist (type <$> indicators (generateRiskProfile d a minRent))
          [Inactivity; OrphanedPda; RentRecoverable].
Proof.
  split; [reflexivity|].
  unfold generateRiskProfile, checkInactivity, checkOrphanedPDA, checkRentRecoverable.
  cbn [indicators].
  destruct (lastWriteSlot_falsy a),
    (Z.gtb (currentSlot d - default 0%Z (lastWriteSlot a)) (inactiveSlotThreshold d)),
    (negb (isPDA a)), (seeds_missing a), (Z.gtb (lamports a - minRent) 0);
    cbn [pushIndicator fst snd app fmap list_fmap type];
    repeat first [apply sublist_nil_l | apply sublist_skip | apply sublist_cons].
Qed.

(** X3.  In a summary every profile is counted once as active (Low), as
    high-risk (High or Critical) or as neither (Medium); the dormant
    count is at most the total. *)
Theorem generateSummary_counts {num} `{JsNumber num}
    (profiles : list (AccountRiskProfile num)) :
  totalAccounts (generateSummary profiles) =
    (activeAccounts (generateSummary profiles)
     + length (filter (fun p => riskLevel p = Medium) profiles)
     + highRiskAccounts (generateSummary profiles))%nat ∧
  dormantAccounts (generateSummary profiles) ≤ totalAccounts (generateSummary profiles).
Proof.
  cbn [generateSummary totalAccounts activeAccounts dormantAccounts highRiskAccounts].
  split; [|apply length_filter].
  induction profiles as [|p profiles IH]; [done|].
  rewrite !filter_cons.
  repeat case_decide; unfold isHighRisk in *; cbn [length];
    solve [ lia | destruct (riskLevel p); intuition congruence ].
Qed.

Lemma foldl_recoverable_sum (profiles : list (AccountRiskProfile Q)) (acc : Q) :
  (foldl (fun sum p => nadd sum (estimatedRecoverableSOL p)) acc profiles ==
   acc + Props.Qsum (estimatedRecoverableSOL <$> profiles))%Q.
Proof.
  revert acc. induction profiles as [|p profiles IH]; intros acc.
  - cbn [foldl fmap list_fmap Props.Qsum foldr]. lra.
  - cbn [foldl]. rewrite IH, fmap_cons. unfold Props.Qsum.
    cbn [foldr nadd Q_JsNumber]. lra.
Qed.

Lemma recoverable_of_account (d : GhostDetector Q) a minRent :
  (estimatedRecoverableSOL (generateRiskProfile d a minRent) ==
   if decide (isHighRisk (generateRiskProfile d a minRent))
   then inject_Z (Z.max 0 (lamports a - minRent)) / 1000000000
   else 0)%Q.
Proof.
  change (estimatedRecoverableSOL (generateRiskProfile d a minRent))
    with (calculateRecoverableSOL (num:=Q) a minRent
            (riskLevel (generateRiskProfile d a minRent))).
  unfold isHighRisk. case_decide as Hhigh.
  - by rewrite (calculateRecoverableSOL_high_critical a minRent _ Hhigh).
  - rewrite calculateRecoverableSOL_low_medium; [reflexivity|].
    destruct (riskLevel_cases (riskLevel (generateRiskProfile d a minRent))); tauto.
Qed.

Lemma recoverable_amount_nonneg (a : PDAccountInfo) (minRent : Z) :
  (0 <= inject_Z (Z.max 0 (lamports a - minRent)) / 1000000000)%Q.
Proof.
  apply Qle_shift_div_l; [lra|]. rewrite Qmult_0_l.
  change 0%Q with (inject_Z 0). rewrite <- Zle_Qle. lia.
Qed.

(** X4.  The total recoverable SOL of a scan is the sum, over the
    accounts rated High or Critical, of [max(0, lamports - minRent) / 1e9];
    it is never negative, and it is 0 when no account is high-risk. *)
Theorem totalRecoverableSOL_from_high_risk
    (d : GhostDetector Q) (accounts : list PDAccountInfo) (minRent : Z) :
  (totalRecoverableSOL (generateSummary (analyzeAccounts d accounts minRent)) ==
   Props.Qsum
     ((fun a => inject_Z (Z.max 0 (lamports a - minRent)) / 1000000000) <$>
      filter (fun a => isHighRisk (generateRiskProfile d a minRent)) accounts))%Q ∧
  (0 <= totalRecoverableSOL (generateSummary (analyzeAccounts d accounts minRent)))%Q ∧
  (highRiskAccounts (generateSummary (analyzeAccounts d accounts minRent)) = 0%nat →
   (totalRecoverableSOL (generateSummary (analyzeAccounts d accounts minRent)) == 0)%Q).
Proof.
  cbn [generateSummary totalRecoverableSOL highRiskAccounts].
  rewrite foldl_recoverable_sum. cbn [of_Z Q_JsNumber].
  change (inject_Z 0) with 0%Q. rewrite Qplus_0_l. unfold analyzeAccounts.
  assert (Hsum :
    (Props.Qsum (estimatedRecoverableSOL <$>
                   map (fun a => generateRiskProfile d a minRent) accounts) ==
     Props.Qsum
       ((fun a => inject_Z (Z.max 0 (lamports a - minRent)) / 1000000000) <$>
        filter (fun a => isHighRisk (generateRiskProfile d a minRent)) accounts))%Q).
  { induction accounts as [|a accounts IH]; [reflexivity|].
    cbn [map fmap list_fmap Props.Qsum foldr]. rewrite filter_cons.
    rewrite (recoverable_of_account d a minRent).
    change (foldr Qplus 0%Q ?l) with (Props.Qsum l).
    case_decide; cbn [fmap list_fmap Props.Qsum foldr];
      change (foldr Qplus 0%Q ?l) with (Props.Qsum l);
      change (list_fmap _ _ ?f ?l) with (f <$> l);
      change (map ?f ?l) with (f <$> l) in IH |- *; rewrite IH; ring. }
  assert (Hnonneg : ∀ l : list PDAccountInfo,
    (0 <= Props.Qsum
            ((fun a => inject_Z (Z.max 0 (lamports a - minRent)) / 1000000000) <$> l))%Q).
  { induction l as [|a l IH]; [apply Qle_refl|].
    cbn [fmap list_fmap Props.Qsum foldr].
    pose proof (recoverable_amount_nonneg a minRent).
    change (foldr Qplus 0%Q ?l) with (Props.Qsum l).
    change (list_fmap _ _ ?f ?l) with (f <$> l). lra. }
  split; [exact Hsum|]. split; [rewrite Hsum; apply Hnonneg|].
  intros Hnone. rewrite Hsum.
  assert (Hnil : filter (fun a => isHighRisk (generateRiskProfile d a minRent)) accounts = []).
  { apply length_zero_iff_nil. rewrite <- Hnone.
    clear. induction accounts as [|a accounts IH]; [done|].
    cbn [map]. rewrite !filter_cons. case_decide; cbn [length]; by rewrite IH. }
  rewrite Hnil. reflexivity.
Qed.

(** *** Dormant accounts *)

Lemma hasInactivityIndicator_iff {num} `{JsNumber num}
    (d : GhostDetector num) a minRent :
  hasInactivityIndicator (generateRiskProfile d a minRent) ↔ Props.unknown_or_stale d a.
Proof.
  unfold hasInactivityIndicator, Props.unknown_or_stale, generateRiskProfile,
    checkInactivity, checkOrphanedPDA, checkRentRecoverable.
  cbn [indicators].
  destruct (lastWriteSlot_falsy a),
    (Z.gtb_spec (currentSlot d - default 0%Z (lastWriteSlot a)) (inactiveSlotThreshold d)),
    (negb (isPDA a)), (seeds_missing a), (Z.gtb (lamports a - minRent) 0);
    cbn [pushIndicator fst snd app];
    rewrite ?Exists_cons, ?Exists_nil; cbn [type];
    split; intros; try tauto; try (intuition (congruence || lia)).
Qed.

(** X5.  The dormant count of a scan is the number of accounts whose
    last write is unknown (or recorded as slot 0) or older than the
    threshold; balance and PDA status play no part. *)
Theorem dormantAccounts_count {num} `{JsNumber num}
    (d : GhostDetector num) (accounts : list PDAccountInfo) (minRent : Z) :
  dormantAccounts (generateSummary (analyzeAccounts d accounts minRent)) =
    length (filter (Props.unknown_or_stale d) accounts).
Proof.
  cbn [generateSummary dormantAccounts]. unfold analyzeAccounts.
  induction accounts as [|a accounts IH]; [done|].
  cbn [map]. rewrite !filter_cons.
  pose proof (hasInactivityIndicator_iff d a minRent) as Hiff.
  repeat case_decide; cbn [length]; try tauto; by rewrite IH.
Qed.

(** X6.  The rent indicator is emitted exactly when the balance exceeds
    the rent-exempt minimum.  With a non-negative rent weight [w] its
    weight lies between 0 and [w * 100], and from an excess of 10 SOL
    (10^10 lamports) on it is [w * 100]: larger balances add nothing. *)
Theorem checkRentRecoverable_saturates
    (d : GhostDetector Q) (a : PDAccountInfo) (minRent : Z) :
  (is_Some (checkRentRecoverable d a minRent) ↔ (minRent < lamports a)%Z) ∧
  (∀ i, checkRentRecoverable d a minRent = Some i →
        (0 <= rentRecoverable (weights d))%Q →
        (0 <= weight i <= rentRecoverable (weights d) * 100)%Q) ∧
  (∀ i, checkRentRecoverable d a minRent = Some i →
        (10000000000 <= lamports a - minRent)%Z →
        (weight i == rentRecoverable (weights d) * 100)%Q).
Proof.
  split; [|split].
  - unfold checkRentRecoverable.
    destruct (Z.gtb_spec (lamports a - minRent) 0); split; intros Hx;
      try lia; try (by eexists); by destruct Hx.
  - intros i Hi Hw.
    destruct (checkRentRecoverable_weight d a minRent i Hi) as [Hpos ->].
    pose proof (rent_factor_nonneg (lamports a - minRent) Hpos) as Hfactor.
    split; [by apply Qmult_le_0_compat|].
    rewrite (Qmult_comm (rentRecoverable (weights d)) _),
            (Qmult_comm (rentRecoverable (weights d)) 100).
    apply Qmult_le_compat_r; [apply Q.le_min_l | done].
  - intros i Hi Hbig.
    destruct (checkRentRecoverable_weight d a minRent i Hi) as [Hpos ->].
    assert (Hx : (10000000000 <= inject_Z (lamports a - minRent))%Q).
    { change 10000000000%Q with (inject_Z 10000000000). by rewrite <- Zle_Qle. }
    assert (Hfull : (100 <= inject_Z (lamports a - minRent) / 1000000000 * 10)%Q).
    { assert (10 <= inject_Z (lamports a - minRent) / 1000000000)%Q
        by (apply Qle_shift_div_l; lra).
      lra. }
    by rewrite (Q.min_l _ _ Hfull).
Qed.

(** ** Authority relationships *)



(** X8.  Run on the relationships built from the same accounts,
    [detectLegacyAuthorities] reports exactly the owner edges whose owner
    is neither an account of the set nor the program; signer edges are
    never reported.  When every account is owned by the program, as the
    accounts of a scan are, nothing is reported. *)
Theorem detectLegacyAuthorities_of_built
    (programId : string) (accounts : list PDAccountInfo) :
  (∀ rel,
     rel ∈ AuthorityTracker.detectLegacyAuthorities programId
             (AuthorityTracker.buildAuthorityRelationships programId accounts) accounts ↔
     ∃ a, a ∈ accounts ∧ (owner a ∉ pubkey <$> accounts) ∧ owner a ≠ programId ∧
          rel = {| account := pubkey a; authority := owner a;
                   privilege := Owner; isActive := true |}) ∧
  ((∀ a, a ∈ accounts → owner a = programId) →
   AuthorityTracker.detectLegacyAuthorities programId
     (AuthorityTracker.buildAuthorityRelationships programId accounts) accounts = []).
Proof.
  assert (Hiff : ∀ rel,
     rel ∈ AuthorityTracker.detectLegacyAuthorities programId
             (AuthorityTracker.buildAuthorityRelationships programId accounts) accounts ↔
     ∃ a, a ∈ accounts ∧ (owner a ∉ pubkey <$> accounts) ∧ owner a ≠ programId ∧
          rel = {| account := pubkey a; authority := owner a;
                   privilege := Owner; isActive := true |}).
  { intros rel. unfold AuthorityTracker.detectLegacyAuthorities.
    rewrite list_elem_of_filter, elem_of_list_to_set, buildAuthorityRelationships_elem.
    split.
    - intros [[Hout Hnp] (a & Ha & [[Hne ->]|(_ & _ & ->)])]; [|done].
      exists a. by repeat split.
    - intros (a & Ha & Hout & Hnp & ->). split; [done|].
      exists a. split; [done|]. left. split; [|done].
      intros Heq. apply Hout. rewrite Heq. by apply list_elem_of_fmap_2. }
  split; [exact Hiff|].
  intros Hall. apply elem_of_nil_inv. intros rel (a & Ha & _ & Hnp & _)%Hiff.
  by apply Hnp, Hall.
Qed.

(** *** The per-account authority summary *)

Lemma Set_from_fold {A} `{EqDecision A} (xs seen : list A) :
  NoDup seen →
  NoDup (foldl (fun seen x => if decide (x ∈ seen) then seen else seen ++ [x]) seen xs) ∧
  ∀ x, x ∈ foldl (fun seen x => if decide (x ∈ seen) then seen else seen ++ [x]) seen xs
       ↔ x ∈ seen ∨ x ∈ xs.
Proof.
  revert seen. induction xs as [|y xs IH]; intros seen Hnd; cbn [foldl].
  - split; [done|]. intros x. rewrite elem_of_nil. tauto.
  - destruct (decide (y ∈ seen)) as [Hin|Hout].
    + destruct (IH seen Hnd) as [Hnd' Hel]. split; [done|].
      intros x. rewrite Hel, elem_of_cons. split; [tauto|].
      intros [?|[->|?]]; tauto.
    + assert (Hnd2 : NoDup (seen ++ [y])).
      { apply NoDup_app. split; [done|]. split; [|apply NoDup_singleton].
        intros x Hx ->%list_elem_of_singleton. done. }
      destruct (IH _ Hnd2) as [Hnd' Hel]. split; [done|].
      intros x. rewrite Hel, elem_of_app, list_elem_of_singleton, elem_of_cons. tauto.
Qed.

Lemma Set_from_spec {A} `{EqDecision A} (xs : list A) :
  NoDup (AuthorityTracker.Set_from xs) ∧
  ∀ x, x ∈ AuthorityTracker.Set_from xs ↔ x ∈ xs.
Proof.
  destruct (Set_from_fold xs [] (NoDup_nil_2)) as [Hnd Hel].
  split; [exact Hnd|]. intros x. unfold AuthorityTracker.Set_from.
  rewrite Hel, elem_of_nil. tauto.
Qed.

(** X9.  In the authority summary of an account the privileges are
    listed without repetition and are exactly those of its
    relationships, so there are never more of them than relationships;
    a legacy authority is flagged exactly when one of its relationships
    is inactive, which never happens on relationships built by
    [buildAuthorityRelationships]. *)
Theorem generateAuthorityRiskSummary_spec
    (a : PDAccountInfo) (relationships : list AuthorityRelationship) :
  NoDup (AuthorityTracker.privileges
           (AuthorityTracker.generateAuthorityRiskSummary a relationships)) ∧
  (∀ p, p ∈ AuthorityTracker.privileges
              (AuthorityTracker.generateAuthorityRiskSummary a relationships) ↔
        ∃ rel, rel ∈ relationships ∧ account rel = pubkey a ∧ privilege rel = p) ∧
  length (AuthorityTracker.privileges
            (AuthorityTracker.generateAuthorityRiskSummary a relationships))
    ≤ AuthorityTracker.authorityCount
        (AuthorityTracker.generateAuthorityRiskSummary a relationships) ∧
  (AuthorityTracker.hasLegacyAuthority
     (AuthorityTracker.generateAuthorityRiskSummary a relationships) = true ↔
   ∃ rel, rel ∈ relationships ∧ account rel = pubkey a ∧ isActive rel = false) ∧
  (∀ programId accounts,
     AuthorityTracker.hasLegacyAuthority
       (AuthorityTracker.generateAuthorityRiskSummary a
          (AuthorityTracker.buildAuthorityRelationships programId accounts)) = false).
Proof.
  assert (Hlegacy : ∀ rels,
    AuthorityTracker.hasLegacyAuthority
      (AuthorityTracker.generateAuthorityRiskSummary a rels) = true ↔
    ∃ rel, rel ∈ rels ∧ account rel = pubkey a ∧ isActive rel = false).
  { intros rels. cbn [AuthorityTracker.generateAuthorityRiskSummary
                      AuthorityTracker.hasLegacyAuthority].
    rewrite bool_decide_eq_true, Exists_exists.
    setoid_rewrite list_elem_of_filter.
    split; intros (rel & Hrel); exists rel; tauto. }
  cbn [AuthorityTracker.generateAuthorityRiskSummary AuthorityTracker.privileges
       AuthorityTracker.authorityCount].
  destruct (Set_from_spec
              (privilege <$> filter (fun rel => account rel = pubkey a) relationships))
    as [Hnd Hel].
  split; [exact Hnd|]. split; [|split; [|split]].
  - intros p. rewrite Hel, list_elem_of_fmap.
    setoid_rewrite list_elem_of_filter.
    split; intros (rel & Hrel); exists rel; intuition congruence.
  - rewrite <- (length_fmap privilege
                  (filter (fun rel => account rel = pubkey a) relationships)).
    apply submseteq_length, NoDup_submseteq; [exact Hnd|].
    intros p. by rewrite Hel.
  - apply Hlegacy.
  - intros programId accounts. apply not_true_iff_false.
    rewrite Hlegacy. intros (rel & Hin & _ & Hinactive).
    apply buildAuthorityRelationships_active in Hin. congruence.
Qed.

(** *** Authority chains *)

Lemma owner_linked_snoc relationships chain x y :
  Props.owner_linked relationships chain → last chain = Some x →
  (∃ rel, rel ∈ relationships ∧ account rel = x ∧ authority rel = y ∧
          privilege rel = Owner) →
  Props.owner_linked relationships (chain ++ [y]).
Proof.
  intros Hlinked Hlast Hrel i a b Hi HSi.
  destruct (decide (S i < length chain)) as [Hlt|Hge].
  - rewrite lookup_app_l in Hi by lia. rewrite lookup_app_l in HSi by lia.
    by apply (Hlinked i).
  - pose proof (lookup_lt_Some _ _ _ HSi) as Hbound.
    rewrite length_app in Hbound. cbn [length] in Hbound.
    assert (HSi' : S i = length chain) by lia.
    rewrite lookup_app_r in HSi by lia.
    replace (S i - length chain) with 0 in HSi by lia. injection HSi as <-.
    rewrite lookup_app_l in Hi by lia.
    rewrite last_lookup in Hlast.
    replace (pred (length chain)) with i in Hlast by lia.
    rewrite Hi in Hlast. by injection Hlast as ->.
Qed.

Lemma ownerAuthorities_elem relationships current auth :
  auth ∈ AuthorityTracker.ownerAuthorities relationships current ↔
  auth ∈ relationships ∧ account auth = current ∧ privilege auth = Owner.
Proof. unfold AuthorityTracker.ownerAuthorities. rewrite list_elem_of_filter. tauto. Qed.

Lemma buildChain_sound relationships n current chain c :
  last chain = Some current → NoDup chain → Props.owner_linked relationships chain →
  c ∈ AuthorityTracker.buildChain relationships n current chain →
  NoDup c ∧ Props.owner_linked relationships c ∧
  length c ≤ length chain + n ∧
  (length c = length chain + n ∨
   ∃ z, last c = Some z ∧ AuthorityTracker.ownerAuthorities relationships z = []).
Proof.
  revert current chain. induction n as [|n IH]; intros current chain Hlast Hnd Hlinked.
  - simpl. intros ->%list_elem_of_singleton. repeat split; [done|done|lia|left; lia].
  - rewrite buildChain_step.
    destruct (AuthorityTracker.ownerAuthorities relationships current) as [|a0 auths] eqn:Howners.
    + cbn [length Nat.eqb]. intros ->%list_elem_of_singleton.
      repeat split; [done|done|lia|]. right. by exists current.
    + cbn [length Nat.eqb]. intros (auth & Hauth & Hc)%elem_of_concat_map.
      case_bool_decide as Hseen; [by apply elem_of_nil in Hc|].
      rewrite <- Howners in Hauth. apply ownerAuthorities_elem in Hauth as (Hin & Hacc & Hpriv).
      apply IH in Hc.
      * rewrite length_app in Hc. cbn [length] in Hc.
        destruct Hc as (? & ? & ? & Hterm). repeat split; [done|done|lia|].
        destruct Hterm as [Hlen|Hend]; [left; lia | by right].
      * apply last_snoc.
      * apply NoDup_app. split; [done|]. split; [|apply NoDup_singleton].
        intros x Hx ->%list_elem_of_singleton. done.
      * apply (owner_linked_snoc _ _ current); [done|done|]. by exists auth.
Qed.

Lemma owner_linked_singleton relationships x :
  Props.owner_linked relationships [x].
Proof. intros i a b Hi HSi. by destruct i. Qed.

(** X10.  Every chain returned by [buildAuthorityChains] begins with the
    start account, repeats no address, holds at most [maxDepth + 1]
    addresses, and each of its addresses is an owner-authority of the
    address before it. *)
Theorem buildAuthorityChains_valid
    (startAccount : string) (relationships : list AuthorityRelationship) (maxDepth : Z) :
  Forall (fun c => (∃ rest, c = startAccount :: rest) ∧ NoDup c ∧
                   Props.owner_linked relationships c ∧
                   length c ≤ Z.to_nat maxDepth + 1)
         (AuthorityTracker.buildAuthorityChains startAccount relationships maxDepth).
Proof.
  apply Forall_forall. intros c Hc. split; [by eapply buildAuthorityChains_start|].
  apply buildChain_sound in Hc as (Hnd & Hlinked & Hlen & _);
    [|done|apply NoDup_singleton|apply owner_linked_singleton].
  cbn [length] in Hlen. repeat split; [done|done|lia].
Qed.

(** X11.  Every chain returned by [buildAuthorityChains] is complete: it
    holds [maxDepth + 1] addresses, or its last address has no owner
    edge.  No chain is cut short for another reason. *)
Theorem buildAuthorityChains_terminal
    (startAccount : string) (relationships : list AuthorityRelationship) (maxDepth : Z) :
  Forall (fun c => length c = (Z.to_nat maxDepth + 1)%nat ∨
                   ∃ z, last c = Some z ∧
                        AuthorityTracker.ownerAuthorities relationships z = [])
         (AuthorityTracker.buildAuthorityChains startAccount relationships maxDepth).
Proof.
  apply Forall_forall. intros c Hc.
  apply buildChain_sound in Hc as (_ & _ & _ & Hterm);
    [|done|apply NoDup_singleton|apply owner_linked_singleton].
  cbn [length] in Hterm. destruct Hterm as [Hlen|Hend]; [left; lia | by right].
Qed.

Lemma buildChain_no_owner relationships n current chain :
  AuthorityTracker.ownerAuthorities relationships current = [] →
  AuthorityTracker.buildChain relationships n current chain = [chain].
Proof.
  intros Hnone. destruct n as [|n]; [done|].
  rewrite buildChain_step, Hnone. done.
Qed.

(** X12.  On the relationships built from accounts that are all owned by
    the program, the program not being one of them, the chains of an
    account are all [account, program], and there is at least one. *)
Theorem buildAuthorityChains_of_program_accounts
    (programId : string) (accounts : list PDAccountInfo) (a : PDAccountInfo)
    (maxDepth : Z) :
  (∀ b, b ∈ accounts → owner b = programId) →
  programId ∉ pubkey <$> accounts →
  a ∈ accounts → (1 <= maxDepth)%Z →
  AuthorityTracker.buildAuthorityChains (pubkey a)
    (AuthorityTracker.buildAuthorityRelationships programId accounts) maxDepth ≠ [] ∧
  Forall (fun c => c = [pubkey a; programId])
    (AuthorityTracker.buildAuthorityChains (pubkey a)
       (AuthorityTracker.buildAuthorityRelationships programId accounts) maxDepth).
Proof.
  intros Howned Hprog Ha Hdepth.
  set (rels := AuthorityTracker.buildAuthorityRelationships programId accounts).
  assert (Hne : ∀ b, b ∈ accounts → owner b ≠ pubkey b).
  { intros b Hb Heq. apply Hprog. rewrite <- (Howned b Hb), Heq.
    by apply list_elem_of_fmap_2. }
  assert (Hprog_none : AuthorityTracker.ownerAuthorities rels programId = []).
  { apply elem_of_nil_inv. intros rel (Hin & Hacc & _)%ownerAuthorities_elem.
    apply buildAuthorityRelationships_elem in Hin as (b & Hb & Hrel).
    apply Hprog. apply list_elem_of_fmap. exists b. split; [|done].
    by destruct Hrel as [[_ ->]|(_ & _ & ->)]. }
  assert (Hto_prog : ∀ auth,
    auth ∈ AuthorityTracker.ownerAuthorities rels (pubkey a) → authority auth = programId).
  { intros auth (Hin & _ & Hpriv)%ownerAuthorities_elem.
    apply buildAuthorityRelationships_elem in Hin as (b & Hb & [[_ ->]|(_ & _ & ->)]);
      [by apply Howned | done]. }
  assert (Hown : {| account := pubkey a; authority := owner a;
                    privilege := Owner; isActive := true |}
                 ∈ AuthorityTracker.ownerAuthorities rels (pubkey a)).
  { apply ownerAuthorities_elem. split; [|done].
    apply buildAuthorityRelationships_elem. exists a. split; [done|]. left.
    split; [by apply Hne | done]. }
  assert (Hfresh : programId ∉ [pubkey a]).
  { intros ->%list_elem_of_singleton. apply Hprog. by apply list_elem_of_fmap_2. }
  unfold AuthorityTracker.buildAuthorityChains.
  destruct (Z.to_nat maxDepth) as [|n] eqn:Hn; [lia|].
  rewrite buildChain_step. fold rels.
  destruct (AuthorityTracker.ownerAuthorities rels (pubkey a)) as [|a0 auths] eqn:Howners;
    [by apply elem_of_nil in Hown|].
  cbn [length Nat.eqb]. split.
  - intros Hnil.
    assert (Hin : [pubkey a; programId] ∈ ([] : list (list string))); [|by apply elem_of_nil in Hin].
    rewrite <- Hnil. apply elem_of_concat_map. exists a0. split; [by left|].
    rewrite (Hto_prog a0) by (by left).
    rewrite bool_decide_eq_false_2 by done.
    rewrite buildChain_no_owner by done. by apply list_elem_of_singleton.
  - apply Forall_forall. intros c (auth & Hauth & Hc)%elem_of_concat_map.
    rewrite (Hto_prog auth Hauth) in Hc.
    rewrite bool_decide_eq_false_2 in Hc by done.
    rewrite buildChain_no_owner in Hc by done. by apply list_elem_of_singleton in Hc.
Qed.

(** ** The relationship graph *)

(** The map built from the profiles gives, for a key, the last profile
    with that key. *)
Lemma riskMapOf_fold (profiles : list (AccountRiskProfile Q))
    (m : gmap string (AccountRiskProfile Q)) (k : string) :
  foldl (fun m p => <[profile_pubkey p := p]> m) m profiles !! k =
    match last (filter (fun p => profile_pubkey p = k) profiles) with
    | Some p => Some p
    | None => m !! k
    end.
Proof.
  revert m. induction profiles as [|p profiles IH]; intros m; [done|].
  cbn [foldl]. rewrite IH, filter_cons.
  destruct (decide (profile_pubkey p = k)) as [<-|Hne].
  - rewrite last_cons.
    destruct (last (filter _ profiles)); [done|]. by rewrite lookup_insert_eq.
  - destruct (last (filter _ profiles)); [done|]. by rewrite lookup_insert_ne.
Qed.

Lemma riskMapOf_lookup (profiles : list (AccountRiskProfile Q)) (k : string) :
  GraphBuilder.riskMapOf profiles !! k =
    last (filter (fun p => profile_pubkey p = k) profiles).
Proof.
  unfold GraphBuilder.riskMapOf. rewrite riskMapOf_fold.
  by destruct (last _).
Qed.

Lemma last_profile_of_accounts (d : GhostDetector Q) accounts minRent k :
  last (filter (fun p => profile_pubkey p = k) (analyzeAccounts d accounts minRent)) =
    (fun a => generateRiskProfile d a minRent) <$>
      last (filter (fun a => pubkey a = k) accounts).
Proof.
  unfold analyzeAccounts. induction accounts as [|a accounts IH]; [done|].
  cbn [map]. rewrite !filter_cons. cbn [profile_pubkey generateRiskProfile].
  destruct (decide (pubkey a = k)); [|done].
  rewrite !last_cons, IH. by destruct (last (filter _ accounts)).
Qed.

Lemma NoDup_fmap_elem_inj {A B} (f : A → B) (l : list A) x y :
  NoDup (f <$> l) → x ∈ l → y ∈ l → f x = f y → x = y.
Proof.
  intros Hnd [i Hi]%list_elem_of_lookup [j Hj]%list_elem_of_lookup Hf.
  assert (i = j) as ->; [|congruence].
  apply (NoDup_lookup _ _ _ (f x) Hnd); rewrite list_lookup_fmap.
  - by rewrite Hi.
  - by rewrite Hj, Hf.
Qed.

Lemma lookup_map_Some {A B} (f : A → B) (l : list A) i x :
  l !! i = Some x → map f l !! i = Some (f x).
Proof.
  revert i. induction l as [|y l IH]; intros [|i]; simpl; try done.
  - by intros [= ->].
  - apply IH.
Qed.

(** X13.  A built graph has the program node first and then one node per
    account, in order.  Every account node carries the profile computed
    for the last account of the input with its address, which is its own
    account when addresses are distinct. *)
Theorem buildGraph_nodes
    (d : GhostDetector Q) (accounts : list PDAccountInfo) (minRent : Z)
    (programId : string) (currentSlot now : Z)
    (authorities : list AuthorityRelationship) :
  node_id <$> nodes (GraphBuilder.buildGraph programId currentSlot now accounts
                       (analyzeAccounts d accounts minRent) authorities)
    = programId :: (pubkey <$> accounts) ∧
  (∀ i a, accounts !! i = Some a →
     ∃ n a',
       nodes (GraphBuilder.buildGraph programId currentSlot now accounts
                (analyzeAccounts d accounts minRent) authorities) !! S i = Some n ∧
       node_id n = pubkey a ∧
       node_type n = (if isPDA a then Pda else Account) ∧
       last (filter (fun b => pubkey b = pubkey a) accounts) = Some a' ∧
       a' ∈ accounts ∧ pubkey a' = pubkey a ∧
       riskProfile n = Some (generateRiskProfile d a' minRent) ∧
       (NoDup (pubkey <$> accounts) → a' = a)).
Proof.
  unfold GraphBuilder.buildGraph, GraphBuilder.buildNodes. cbn [nodes]. cbv zeta.
  split.
  - rewrite fmap_cons. cbn [node_id]. f_equal.
    generalize (GraphBuilder.riskMapOf (analyzeAccounts d accounts minRent)).
    intros m. induction accounts as [|b accounts IH]; [done|].
    cbn [map]. rewrite !fmap_cons. cbn [node_id]. by f_equal.
  - intros i a Hi.
    assert (Hin : a ∈ accounts) by (by apply list_elem_of_lookup_2 in Hi).
    destruct (last (filter (fun b => pubkey b = pubkey a) accounts)) as [a'|] eqn:Hlast.
    + assert (Ha' : a' ∈ filter (fun b => pubkey b = pubkey a) accounts).
      { apply last_Some in Hlast as [l' ->]. apply elem_of_app. right. by left. }
      apply list_elem_of_filter in Ha' as [Hpk Ha'].
      eexists _, a'.
      split; [exact (lookup_map_Some _ _ i a Hi)|]. cbn [node_id node_type riskProfile].
      split; [done|]. split; [done|]. split; [done|]. split; [done|].
      split; [done|]. split.
      * by rewrite riskMapOf_lookup, last_profile_of_accounts, Hlast.
      * intros Hnd. by apply (NoDup_fmap_elem_inj pubkey accounts).
    + apply last_None in Hlast.
      assert (Ha : a ∈ filter (fun b => pubkey b = pubkey a) accounts)
        by (by apply list_elem_of_filter).
      rewrite Hlast in Ha. by apply elem_of_nil in Ha.
Qed.

Lemma foldl_push_if {A B} (c : A → bool) (g : A → B) (l : list A) (acc : list B) :
  foldl (fun es x => if c x then es ++ [g x] else es) acc l =
    acc ++ concat (map (fun x => if c x then [g x] else []) l).
Proof.
  revert acc. induction l as [|x l IH]; intros acc; simpl.
  - by rewrite app_nil_r.
  - rewrite IH. destruct (c x); simpl; [by rewrite <- app_assoc | done].
Qed.

Lemma buildEdges_elem programId accounts authorities e :
  e ∈ GraphBuilder.buildEdges programId accounts authorities ↔
  (∃ a, a ∈ accounts ∧ owner a = programId ∧
        e = {| source := programId; target := pubkey a;
               relationship := Owns; edge_isActive := true |}) ∨
  (∃ a, a ∈ accounts ∧ isPDA a = true ∧ is_Some (seeds a) ∧
        e = {| source := programId; target := pubkey a;
               relationship := DerivedFrom; edge_isActive := true |}) ∨
  (∃ auth, auth ∈ authorities ∧ privilege auth = Owner ∧ authority auth ≠ programId ∧
        e = {| source := authority auth; target := account auth;
               relationship := AuthorityEdge; edge_isActive := isActive auth |}).
Proof.
  unfold GraphBuilder.buildEdges.
  rewrite (foldl_push_if (fun a => bool_decide (owner a = programId))
             (fun a => {| source := programId; target := pubkey a;
                          relationship := Owns; edge_isActive := true |})).
  rewrite (foldl_push_if (fun a => isPDA a && AuthorityTracker.seeds_truthy a)
             (fun a => {| source := programId; target := pubkey a;
                          relationship := DerivedFrom; edge_isActive := true |})).
  rewrite (foldl_push_if
             (fun auth => bool_decide (privilege auth = Owner)
                          && bool_decide (authority auth ≠ programId))
             (fun auth => {| source := authority auth; target := account auth;
                             relationship := AuthorityEdge;
                             edge_isActive := isActive auth |})).
  cbn [app]. rewrite !elem_of_app, !elem_of_concat_map.
  assert (H1 : (∃ x, x ∈ accounts ∧
              e ∈ (if bool_decide (owner x = programId)
                   then [{| source := programId; target := pubkey x;
                            relationship := Owns; edge_isActive := true |}] else [])) ↔
           ∃ a, a ∈ accounts ∧ owner a = programId ∧
                e = {| source := programId; target := pubkey a;
                       relationship := Owns; edge_isActive := true |}).
  { split; intros (a & Ha & Hrest); exists a; (split; [done|]).
    - case_bool_decide; [|by apply elem_of_nil in Hrest].
      by apply list_elem_of_singleton in Hrest.
    - destruct Hrest as [Ho ->]. rewrite bool_decide_eq_true_2 by done.
      by apply list_elem_of_singleton. }
  assert (H2 : (∃ x, x ∈ accounts ∧
              e ∈ (if isPDA x && AuthorityTracker.seeds_truthy x
                   then [{| source := programId; target := pubkey x;
                            relationship := DerivedFrom; edge_isActive := true |}]
                   else [])) ↔
           ∃ a, a ∈ accounts ∧ isPDA a = true ∧ is_Some (seeds a) ∧
                e = {| source := programId; target := pubkey a;
                       relationship := DerivedFrom; edge_isActive := true |}).
  { unfold AuthorityTracker.seeds_truthy.
    split; intros (a & Ha & Hrest); exists a; (split; [done|]).
    - destruct (isPDA a), (seeds a); simpl in Hrest;
        try (by apply elem_of_nil in Hrest).
      apply list_elem_of_singleton in Hrest. eauto.
    - destruct Hrest as (-> & [l ->] & ->). simpl. by apply list_elem_of_singleton. }
  assert (H3 : (∃ x, x ∈ authorities ∧
              e ∈ (if bool_decide (privilege x = Owner)
                      && bool_decide (authority x ≠ programId)
                   then [{| source := authority x; target := account x;
                            relationship := AuthorityEdge;
                            edge_isActive := isActive x |}] else [])) ↔
           ∃ auth, auth ∈ authorities ∧ privilege auth = Owner ∧
                authority auth ≠ programId ∧
                e = {| source := authority auth; target := account auth;
                       relationship := AuthorityEdge;
                       edge_isActive := isActive auth |}).
  { split; intros (a & Ha & Hrest); exists a; (split; [done|]).
    - do 2 (case_bool_decide; simpl in Hrest; [|by apply elem_of_nil in Hrest]).
      by apply list_elem_of_singleton in Hrest.
    - destruct Hrest as (Hp & Hn & ->). rewrite !bool_decide_eq_true_2 by done.
      simpl. by apply list_elem_of_singleton. }
  rewrite H1, H2, H3. tauto.
Qed.

(** X14.  In the graph built from accounts and the relationships built
    from the same accounts, every edge is active and ends at an account
    of the scan (so at a node of the graph).  It starts at the program,
    as an "owns" or "derived_from" edge, or it is an "authority" edge
    from the owner of the account it ends at, that owner being neither
    the program nor the account itself. *)
Theorem buildGraph_edges
    (programId : string) (currentSlot now : Z) (accounts : list PDAccountInfo)
    (profiles : list (AccountRiskProfile Q)) :
  Forall (fun e =>
    edge_isActive e = true ∧
    target e ∈ pubkey <$> accounts ∧
    ((source e = programId ∧ (relationship e = Owns ∨ relationship e = DerivedFrom)) ∨
     (relationship e = AuthorityEdge ∧
      ∃ a, a ∈ accounts ∧ target e = pubkey a ∧ source e = owner a ∧
           owner a ≠ programId ∧ owner a ≠ pubkey a)))
    (edges (GraphBuilder.buildGraph programId currentSlot now accounts profiles
              (AuthorityTracker.buildAuthorityRelationships programId accounts))).
Proof.
  apply Forall_forall. intros e. cbn [GraphBuilder.buildGraph edges].
  rewrite buildEdges_elem.
  intros [(a & Ha & Ho & ->)|[(a & Ha & Hp & Hs & ->)|(auth & Hauth & Hp & Hn & ->)]];
    cbn [edge_isActive target source relationship].
  - split; [done|]. split; [by apply list_elem_of_fmap_2|]. left. by split; [|left].
  - split; [done|]. split; [by apply list_elem_of_fmap_2|]. left. by split; [|right].
  - apply buildAuthorityRelationships_elem in Hauth
      as (a & Ha & [[Hne ->]|(_ & _ & ->)]); [|done].
    cbn [isActive account authority] in *.
    split; [done|]. split; [by apply list_elem_of_fmap_2|]. right.
    split; [done|]. by exists a.
Qed.

(** *** Filtering for visualization *)

Lemma Array_slice0_length_le {A} (l : list A) (e : Z) :
  (0 <= e)%Z → (Z.of_nat (length (GraphBuilder.Array_slice0 l e)) <= e)%Z.
Proof.
  intros He. unfold GraphBuilder.Array_slice0.
  destruct (Z.ltb_spec e 0); [lia|]. rewrite length_take. lia.
Qed.

Lemma Array_slice0_sublist {A} (l : list A) (e : Z) :
  sublist (GraphBuilder.Array_slice0 l e) l.
Proof. unfold GraphBuilder.Array_slice0. apply sublist_take. Qed.

(** What a filtering that does cut the graph returns. *)
Lemma filterGraphForVisualization_cut G C b G' :
  GraphBuilder.filterGraphForVisualization G C b = Some G' →
  (C < Z.of_nat (length (nodes G)))%Z →
  ∃ p others,
    List.find (fun n => bool_decide (node_type n = Program)) (nodes G) = Some p ∧
    others ≡ₚ filter (fun n => node_type n ≠ Program) (nodes G) ∧
    nodes G' = p :: GraphBuilder.Array_slice0 others (C - 1) ∧
    sublist (edges G') (edges G) ∧
    programId G' = programId G ∧ scanTimestamp G' = scanTimestamp G ∧
    graph_currentSlot G' = graph_currentSlot G.
Proof.
  unfold GraphBuilder.filterGraphForVisualization. intros Hrun Hgt.
  destruct (Z.leb_spec (Z.of_nat (length (nodes G))) C); [lia|].
  destruct (List.find _ (nodes G)) as [p|]; [|done].
  injection Hrun as <-. cbn [nodes edges programId scanTimestamp graph_currentSlot].
  exists p. eexists. split; [done|]. split; [|split; [reflexivity|]].
  - destruct b; [apply Array_sort_perm | done].
  - split; [apply sublist_filter | done].
Qed.

Lemma filterGraphForVisualization_bound G C b G' :
  (1 <= C)%Z →
  GraphBuilder.filterGraphForVisualization G C b = Some G' →
  (Z.of_nat (length (nodes G')) <= C)%Z.
Proof.
  intros HC Hrun.
  destruct (Z.le_gt_cases (Z.of_nat (length (nodes G))) C) as [Hle|Hgt].
  - unfold GraphBuilder.filterGraphForVisualization in Hrun.
    destruct (Z.leb_spec (Z.of_nat (length (nodes G))) C); [|lia]. congruence.
  - destruct (filterGraphForVisualization_cut G C b G' Hrun Hgt)
      as (p & others & _ & _ & -> & _).
    cbn [length].
    pose proof (Array_slice0_length_le others (C - 1) ltac:(lia)). lia.
Qed.

Lemma filterGraphForVisualization_edges_sublist G C b G' :
  GraphBuilder.filterGraphForVisualization G C b = Some G' →
  sublist (edges G') (edges G).
Proof.
  intros Hrun.
  destruct (Z.le_gt_cases (Z.of_nat (length (nodes G))) C) as [Hle|Hgt].
  - unfold GraphBuilder.filterGraphForVisualization in Hrun.
    destruct (Z.leb_spec (Z.of_nat (length (nodes G))) C); [|lia].
    by injection Hrun as <-.
  - by destruct (filterGraphForVisualization_cut G C b G' Hrun Hgt)
      as (p & others & _ & _ & _ & Hedges & _).
Qed.

(** X15.  For a cap of at least 1, a successful filtering returns at
    most [cap] nodes, and filtering its result again changes nothing. *)
Theorem filterGraphForVisualization_idempotent
    (G G' : AccountGraph) (C : Z) (b : bool) :
  (1 <= C)%Z →
  GraphBuilder.filterGraphForVisualization G C b = Some G' →
  (Z.of_nat (length (nodes G')) <= C)%Z ∧
  GraphBuilder.filterGraphForVisualization G' C b = Some G'.
Proof.
  intros HC Hrun.
  pose proof (filterGraphForVisualization_bound G C b G' HC Hrun) as Hbound.
  split; [exact Hbound|].
  unfold GraphBuilder.filterGraphForVisualization.
  by destruct (Z.leb_spec (Z.of_nat (length (nodes G'))) C); [|lia].
Qed.

(** X16.  Filtering invents nothing: the nodes returned are nodes of the
    graph, each taken at most as often as it occurs there, the edges
    returned are edges of the graph in their order, and the program id,
    timestamp and slot are kept. *)
Theorem filterGraphForVisualization_subgraph
    (G G' : AccountGraph) (C : Z) (b : bool) :
  GraphBuilder.filterGraphForVisualization G C b = Some G' →
  nodes G' ⊆+ nodes G ∧ sublist (edges G') (edges G) ∧
  programId G' = programId G ∧ scanTimestamp G' = scanTimestamp G ∧
  graph_currentSlot G' = graph_currentSlot G.
Proof.
  intros Hrun.
  destruct (Z.le_gt_cases (Z.of_nat (length (nodes G))) C) as [Hle|Hgt].
  - unfold GraphBuilder.filterGraphForVisualization in Hrun.
    destruct (Z.leb_spec (Z.of_nat (length (nodes G))) C); [|lia].
    injection Hrun as <-. done.
  - destruct (filterGraphForVisualization_cut G C b G' Hrun Hgt)
      as (p & others & Hfind & Hperm & -> & Hedges & Hrest).
    split; [|by split].
    apply find_some in Hfind as [Hin Hp]. apply bool_decide_eq_true in Hp.
    apply list_elem_of_In in Hin.
    rewrite <- (filter_app_complement (fun n => node_type n = Program) (nodes G)).
    change (p :: GraphBuilder.Array_slice0 others (C - 1))
      with ([p] ++ GraphBuilder.Array_slice0 others (C - 1)).
    apply submseteq_app.
    + apply singleton_submseteq_l, list_elem_of_filter. by split.
    + rewrite <- Hperm. apply sublist_submseteq, Array_slice0_sublist.
Qed.

(** ** The scan result *)


Lemma buildEdges_active programId accounts e :
  e ∈ GraphBuilder.buildEdges programId accounts
        (AuthorityTracker.buildAuthorityRelationships programId accounts) →
  edge_isActive e = true.
Proof.
  intros [(a & _ & _ & ->)|[(a & _ & _ & _ & ->)|(auth & Hauth & _ & _ & ->)]]%buildEdges_elem;
    [done|done|].
  by apply buildAuthorityRelationships_active in Hauth.
Qed.


(** ** Classification of addresses *)

Section Classification.
Context {PublicKey : Type} `{EqDecision PublicKey}.
Variable PublicKey_new : string → option PublicKey.
Variable isOnCurve : PublicKey → bool.
Variable findProgramAddress :
  list (list Byte.byte) → PublicKey → option (PublicKey * Z).
Variable programId : PublicKey.

Local Abbreviation attemptCommonDerivations :=
  (PDADetector.attemptCommonDerivations findProgramAddress programId).
Local Abbreviation analyzePDA :=
  (PDADetector.analyzePDA PublicKey_new isOnCurve findProgramAddress programId).
Local Abbreviation derives := (Props.derives findProgramAddress programId).
Local Abbreviation firstMatch := (Props.firstMatch findProgramAddress programId).

Lemma firstMatch_Some target attempts r :
  firstMatch target attempts = Some r →
  ∃ p b, (p, b) ∈ attempts ∧ derives p b target ∧
         r = {| derivation_seeds := p; derivation_bump := b |}.
Proof.
  induction attempts as [|[p b] attempts IH]; [done|]. simpl.
  destruct (PDADetector.tryDerivation findProgramAddress programId target p b)
    as [r'|] eqn:Htry.
  - intros [= <-]. apply tryDerivation_Some in Htry as [Hd ->].
    exists p, b. split; [by left | done].
  - intros (p' & b' & Hin & Hrest)%IH. exists p', b'. split; [by right | done].
Qed.

Lemma firstMatch_None target attempts :
  firstMatch target attempts = None ↔
  ∀ p b, (p, b) ∈ attempts → ¬ derives p b target.
Proof.
  induction attempts as [|[p b] attempts IH]; simpl.
  - split; [|done]. intros _ p b Hin. by apply elem_of_nil in Hin.
  - destruct (PDADetector.tryDerivation findProgramAddress programId target p b)
      as [r'|] eqn:Htry.
    + apply tryDerivation_Some in Htry as [Hd _]. split; [done|].
      intros Hnone. exfalso. apply (Hnone p b); [by left | done].
    + apply tryDerivation_None in Htry. rewrite IH. split.
      * intros Hnone p' b' [[= -> ->]|Hin]%elem_of_cons; [done | by apply Hnone].
      * intros Hnone p' b' Hin. apply Hnone. by right.
Qed.

Lemma attemptCommonDerivations_Some target r :
  attemptCommonDerivations target = Some r →
  derivation_seeds r ∈ PDADetector.commonSeeds ∧
  (0 <= derivation_bump r <= 255)%Z ∧
  derives (derivation_seeds r) (derivation_bump r) target.
Proof.
  rewrite attemptCommonDerivations_firstMatch.
  intros (p & b & [Hp Hb]%elem_of_searchOrder & Hd & ->)%firstMatch_Some. done.
Qed.

(** X18.  Seed recovery is sound and complete for its search space,
    whatever the derivation function: a returned pattern is in the
    catalogue, the returned bump is between 0 and 255 and together they
    do derive the target address; and nothing is returned exactly when
    none of the catalogue patterns with a bump of 0 to 255 derives it. *)
Theorem attemptCommonDerivations_sound_complete (target : PublicKey) :
  (∀ r, attemptCommonDerivations target = Some r →
        derivation_seeds r ∈ PDADetector.commonSeeds ∧
        (0 <= derivation_bump r <= 255)%Z ∧
        derives (derivation_seeds r) (derivation_bump r) target) ∧
  (attemptCommonDerivations target = None ↔
   ∀ p b, p ∈ PDADetector.commonSeeds → (0 <= b <= 255)%Z → ¬ derives p b target).
Proof.
  split; [apply attemptCommonDerivations_Some|].
  rewrite attemptCommonDerivations_firstMatch, firstMatch_None. split.
  - intros Hnone p b Hp Hb. apply Hnone. by apply elem_of_searchOrder.
  - intros Hnone p b [Hp Hb]%elem_of_searchOrder. by apply Hnone.
Qed.

(** What a classified account looks like. *)
Lemma analyzePDA_Some a c :
  analyzePDA a = Some c →
  ∃ key, PublicKey_new (ai_pubkey a) = Some key ∧
    pubkey c = ai_pubkey a ∧ owner c = ai_owner a ∧ lamports c = ai_lamports a ∧
    data c = ai_data a ∧ executable c = ai_executable a ∧
    rentEpoch c = ai_rentEpoch a ∧ lastWriteSlot c = ai_lastWriteSlot a ∧
    isPDA c = negb (isOnCurve key) ∧
    ((seeds c = None ∧ bump c = None) ∨
     ∃ p b, seeds c = Some p ∧ bump c = Some b ∧ isPDA c = true ∧
            p ∈ PDADetector.commonSeeds ∧ (0 <= b <= 255)%Z ∧ derives p b key).
Proof.
  unfold PDADetector.analyzePDA.
  destruct (PublicKey_new (ai_pubkey a)) as [key|]; [|done].
  intros [= <-]. exists key.
  cbn [pubkey owner lamports data executable rentEpoch lastWriteSlot isPDA seeds bump].
  cbv zeta. repeat (split; [done|]).
  destruct (negb (isOnCurve key)); [|by left].
  destruct (attemptCommonDerivations key) as [r|] eqn:Hr; [|by left].
  apply attemptCommonDerivations_Some in Hr as (Hp & Hb & Hd).
  right. by exists (derivation_seeds r), (derivation_bump r).
Qed.

(** X19.  Classifying an account keeps its address, owner, balance and
    last write slot and marks it as a PDA exactly when its address is off
    the curve.  Seeds and bump are recorded together or not at all; when
    recorded, the account is a PDA, the seeds are a catalogue pattern,
    the bump is between 0 and 255 and they derive the account's
    address.  An address on the curve is never searched. *)
Theorem analyzePDA_spec (a : AccountInfo) (c : PDAccountInfo) :
  analyzePDA a = Some c →
  ∃ key, PublicKey_new (ai_pubkey a) = Some key ∧
    pubkey c = ai_pubkey a ∧ owner c = ai_owner a ∧ lamports c = ai_lamports a ∧
    lastWriteSlot c = ai_lastWriteSlot a ∧
    isPDA c = negb (isOnCurve key) ∧
    ((seeds c = None ∧ bump c = None) ∨
     ∃ p b, seeds c = Some p ∧ bump c = Some b ∧ isPDA c = true ∧
            p ∈ PDADetector.commonSeeds ∧ (0 <= b <= 255)%Z ∧ derives p b key).
Proof.
  intros (key & Hkey & ? & ? & ? & _ & _ & _ & ? & ? & ?)%analyzePDA_Some.
  exists key. by repeat split.
Qed.

(** X20.  A batch classification is all or nothing: it fails exactly
    when one of the addresses is not a valid key, and otherwise returns
    one classified account per input account, in order. *)
Theorem batchAnalyzePDAs_all_or_nothing (accounts : list AccountInfo) :
  (PDADetector.batchAnalyzePDAs PublicKey_new isOnCurve findProgramAddress programId
     accounts = None ↔
   ∃ a, a ∈ accounts ∧ PublicKey_new (ai_pubkey a) = None) ∧
  (∀ l, PDADetector.batchAnalyzePDAs PublicKey_new isOnCurve findProgramAddress
          programId accounts = Some l →
        pubkey <$> l = ai_pubkey <$> accounts).
Proof.
  unfold PDADetector.batchAnalyzePDAs. split.
  - rewrite mapM_None, Exists_exists. split.
    + intros (a & Ha & Hnone). exists a. split; [done|].
      unfold PDADetector.analyzePDA in Hnone.
      by destruct (PublicKey_new (ai_pubkey a)).
    + intros (a & Ha & Hnone). exists a. split; [done|].
      unfold PDADetector.analyzePDA. by rewrite Hnone.
  - intros l Hl%mapM_Some_1.
    induction Hl as [|a c accounts l Hac _ IH]; [done|].
    rewrite !fmap_cons. f_equal; [|exact IH].
    by apply analyzePDA_Some in Hac as (key & _ & ? & _).
Qed.

(** X21.  For a classified account the modules agree: the scorer emits
    the orphaned-PDA indicator exactly when [isLikelyReachable] is false,
    which is exactly when the account is a PDA for which the authority
    tracker builds no signer relationship; and the derivation depth is
    at most 1. *)
Theorem classified_account_consistent {num} `{JsNumber num}
    (d : GhostDetector num) (tracker_programId : string)
    (a : AccountInfo) (c : PDAccountInfo) :
  analyzePDA a = Some c →
  (is_Some (checkOrphanedPDA d c) ↔ PDADetector.isLikelyReachable c = false) ∧
  (is_Some (checkOrphanedPDA d c) ↔
   isPDA c = true ∧
   ∀ rel, rel ∈ AuthorityTracker.relationshipsOf tracker_programId c →
          privilege rel ≠ Signer) ∧
  PDADetector.getDerivationDepth c ≤ 1.
Proof.
  intros (key & _ & _ & _ & _ & _ & _ & _ & _ & _ & Hseeds)%analyzePDA_Some.
  assert (Hcases : seeds c = None ∨ ∃ label, seeds c = Some [label] ∧ isPDA c = true).
  { destruct Hseeds as [[-> _]|(p & b & -> & _ & Hpda & [label ->]%commonSeeds_single & _)];
      [by left | right; by exists label]. }
  unfold checkOrphanedPDA, seeds_missing, PDADetector.isLikelyReachable,
    PDADetector.getDerivationDepth, AuthorityTracker.relationshipsOf,
    AuthorityTracker.seeds_truthy.
  destruct Hcases as [->|(label & -> & ->)].
  - destruct (isPDA c); cbn [negb andb length Nat.eqb].
    + split; [split; [done | by eexists]|]. split; [|lia]. split; [|by eexists].
      intros _. split; [done|]. intros rel. rewrite app_nil_r.
      case_bool_decide; [|by rewrite elem_of_nil].
      by intros ->%list_elem_of_singleton.
    + split; [split; [by intros [? [=]] | done]|]. split; [|lia].
      split; [by intros [? [=]] | by intros [[=] _]].
  - cbn [negb andb length Nat.eqb]. split; [split; [by intros [? [=]] | done]|].
    split; [|lia]. split; [by intros [? [=]]|].
    intros [_ Hno]. exfalso.
    apply (Hno {| account := pubkey c; authority := tracker_programId;
                  privilege := Signer; isActive := true |}); [|done].
    apply elem_of_app. right. by left.
Qed.
End Classification.

(** ** The properties with a precondition, on sample inputs *)

Lemma buildAuthorityChains_of_program_accounts_witness :
  AuthorityTracker.buildAuthorityChains "A"
    (AuthorityTracker.buildAuthorityRelationships "Prog"
       [Sample.plainAccount "A" "Prog"; Sample.plainAccount "B" "Prog"]) 5 ≠ [] ∧
  Forall (fun c => c = ["A"; "Prog"])
    (AuthorityTracker.buildAuthorityChains "A"
       (AuthorityTracker.buildAuthorityRelationships "Prog"
          [Sample.plainAccount "A" "Prog"; Sample.plainAccount "B" "Prog"]) 5).
Proof.
  apply (buildAuthorityChains_of_program_accounts "Prog"
           [Sample.plainAccount "A" "Prog"; Sample.plainAccount "B" "Prog"]
           (Sample.plainAccount "A" "Prog") 5).
  - intros b. rewrite !elem_of_cons, elem_of_nil. by intros [->|[->|[]]].
  - cbn [fmap list_fmap Sample.plainAccount pubkey].
    rewrite !elem_of_cons, elem_of_nil. by intros [|[|[]]].
  - by left.
  - lia.
Defined.

Lemma filterGraphForVisualization_idempotent_witness :
  ∃ G', GraphBuilder.filterGraphForVisualization Sample.fiveNodeGraph 3 true = Some G' ∧
        (Z.of_nat (length (nodes G')) <= 3)%Z ∧
        GraphBuilder.filterGraphForVisualization G' 3 true = Some G'.
Proof.
  eexists. split; [vm_compute; reflexivity|].
  apply (filterGraphForVisualization_idempotent Sample.fiveNodeGraph _ 3 true);
    [lia | vm_compute; reflexivity].
Defined.

Lemma filterGraphForVisualization_subgraph_witness :
  ∃ G', GraphBuilder.filterGraphForVisualization Sample.fiveNodeGraph 3 true = Some G' ∧
        nodes G' ⊆+ nodes Sample.fiveNodeGraph ∧
        sublist (edges G') (edges Sample.fiveNodeGraph) ∧
        programId G' = programId Sample.fiveNodeGraph ∧
        scanTimestamp G' = scanTimestamp Sample.fiveNodeGraph ∧
        graph_currentSlot G' = graph_currentSlot Sample.fiveNodeGraph.
Proof.
  eexists. split; [vm_compute; reflexivity|].
  apply (filterGraphForVisualization_subgraph Sample.fiveNodeGraph _ 3 true).
  vm_compute; reflexivity.
Defined.

Lemma analyzePDA_spec_witness :
  ∃ c, PDADetector.analyzePDA Sample.textKey_new Sample.textKey_isOnCurve
         Sample.textKey_findProgramAddress "Prog" Sample.vaultAccount = Some c ∧
  ∃ key, Sample.textKey_new (ai_pubkey Sample.vaultAccount) = Some key ∧
    pubkey c = ai_pubkey Sample.vaultAccount ∧ owner c = ai_owner Sample.vaultAccount ∧
    lamports c = ai_lamports Sample.vaultAccount ∧
    lastWriteSlot c = ai_lastWriteSlot Sample.vaultAccount ∧
    isPDA c = negb (Sample.textKey_isOnCurve key) ∧
    ((seeds c = None ∧ bump c = None) ∨
     ∃ p b, seeds c = Some p ∧ bump c = Some b ∧ isPDA c = true ∧
            p ∈ PDADetector.commonSeeds ∧ (0 <= b <= 255)%Z ∧
            Props.derives Sample.textKey_findProgramAddress "Prog" p b key).
Proof.
  eexists. split; [vm_compute; reflexivity|].
  apply (analyzePDA_spec Sample.textKey_new Sample.textKey_isOnCurve
           Sample.textKey_findProgramAddress "Prog" Sample.vaultAccount).
  vm_compute; reflexivity.
Defined.

Lemma classified_account_consistent_witness :
  ∃ c, PDADetector.analyzePDA Sample.textKey_new Sample.textKey_isOnCurve
         Sample.textKey_findProgramAddress "Prog" Sample.vaultAccount = Some c ∧
  (is_Some (checkOrphanedPDA (Scenario.detectorQ 1000000 500000 (1 # 4) (1 # 4)) c) ↔
   PDADetector.isLikelyReachable c = false) ∧
  (is_Some (checkOrphanedPDA (Scenario.detectorQ 1000000 500000 (1 # 4) (1 # 4)) c) ↔
   isPDA c = true ∧
   ∀ rel, rel ∈ AuthorityTracker.relationshipsOf "Prog" c → privilege rel ≠ Signer) ∧
  PDADetector.getDerivationDepth c ≤ 1.
Proof.
  eexists. split; [vm_compute; reflexivity|].
  apply (classified_account_consistent Sample.textKey_new Sample.textKey_isOnCurve
           Sample.textKey_findProgramAddress "Prog"
           (Scenario.detectorQ 1000000 500000 (1 # 4) (1 # 4)) "Prog"
           Sample.vaultAccount).
  vm_compute; reflexivity.
Defined.

(** ** Batches and activity lookups *)

Lemma Array_slice_window {T} (items : list T) (i n : Z) :
  (0 <= i < Z.of_nat (length items))%Z → (1 <= n)%Z →
  GraphBuilder.Array_slice items i (i + n) =
    take (Z.to_nat (Z.min n (Z.of_nat (length items) - i))) (drop (Z.to_nat i) items).
Proof.
  intros Hi Hn. unfold GraphBuilder.Array_slice. cbv zeta.
  destruct (Z.ltb_spec i 0); [lia|].
  destruct (Z.ltb_spec (i + n) 0); [lia|].
  f_equal; [|f_equal]; lia.
Qed.

Lemma createBatches_loop_spec {T} (items : list T) (batchSize : Z) :
  (1 <= batchSize)%Z →
  ∀ fuel i batches,
    (0 <= i)%Z → (Z.of_nat (length items) - i <= Z.of_nat fuel)%Z →
    ∃ rest,
      RpcClient.createBatches_loop fuel items batchSize i batches =
        Some (batches ++ rest) ∧
      concat rest = drop (Z.to_nat i) items ∧
      Forall (fun b => (1 <= Z.of_nat (length b) <= batchSize)%Z) rest ∧
      ∀ k b, rest !! k = Some b → S k < length rest →
             Z.of_nat (length b) = batchSize.
Proof.
  intros Hsize fuel.
  induction fuel as [|fuel IH]; intros i batches Hi Hfuel.
  - exists []. cbn [RpcClient.createBatches_loop].
    destruct (Z.ltb_spec i (Z.of_nat (length items))); [lia|].
    rewrite app_nil_r, drop_ge by lia. by repeat split.
  - cbn [RpcClient.createBatches_loop].
    destruct (Z.ltb_spec i (Z.of_nat (length items))) as [Hlt|Hge].
    + destruct (IH (i + batchSize)%Z
                  (batches ++ [GraphBuilder.Array_slice items i (i + batchSize)]))
        as (rest & Hrun & Hconcat & Hsizes & Hfull); [lia | lia |].
      rewrite Array_slice_window in Hrun |- * by lia.
      set (batch := take (Z.to_nat (Z.min batchSize (Z.of_nat (length items) - i)))
                         (drop (Z.to_nat i) items)) in *.
      assert (Hlen : Z.of_nat (length batch) =
                     Z.min batchSize (Z.of_nat (length items) - i)).
      { unfold batch. rewrite length_take, length_drop. lia. }
      exists (batch :: rest). split; [by rewrite Hrun, <- app_assoc|].
      split; [|split].
      * cbn [concat]. rewrite Hconcat.
        destruct (Z.le_gt_cases (i + batchSize) (Z.of_nat (length items))) as [Hin|Hout].
        -- unfold batch. rewrite Z.min_l by lia.
           replace (Z.to_nat (i + batchSize))
             with (Z.to_nat i + Z.to_nat batchSize)%nat by lia.
           by rewrite <- drop_drop, take_drop.
        -- rewrite (drop_ge items (Z.to_nat (i + batchSize))) by lia.
           unfold batch. rewrite take_ge by (rewrite length_drop; lia).
           by rewrite app_nil_r.
      * constructor; [lia | done].
      * intros [|k] b Hb Hk; cbn in Hb, Hk.
        -- injection Hb as <-. rewrite Hlen.
           destruct rest as [|b' rest']; [cbn in Hk; lia|].
           assert (Hmore : drop (Z.to_nat (i + batchSize)) items ≠ []).
           { rewrite <- Hconcat. apply Forall_cons in Hsizes as [Hb' _].
             cbn [concat]. destruct b'; [cbn in Hb'; lia | done]. }
           destruct (Z.le_gt_cases (Z.of_nat (length items)) (i + batchSize));
             [|lia].
           exfalso. apply Hmore, drop_ge. lia.
        -- apply (Hfull k b Hb). lia.
    + exists []. rewrite app_nil_r, drop_ge by lia. by repeat split.
Qed.

(** X22.  For a batch size of at least 1 the loop of [createBatches]
    ends after at most one round per item, and the batches partition the
    items: joined in order they give the items back, every batch holds
    between 1 and [batchSize] items, and every batch but the last holds
    exactly [batchSize]. *)
Theorem createBatches_partition {T} (fuel : nat) (items : list T) (batchSize : Z) :
  (1 <= batchSize)%Z → length items ≤ fuel →
  ∃ batches,
    RpcClient.createBatches fuel items batchSize = Some batches ∧
    concat batches = items ∧
    Forall (fun b => (1 <= Z.of_nat (length b) <= batchSize)%Z) batches ∧
    ∀ k b, batches !! k = Some b → S k < length batches →
           Z.of_nat (length b) = batchSize.
Proof.
  intros Hsize Hfuel.
  destruct (createBatches_loop_spec items batchSize Hsize fuel 0 [])
    as (rest & Hrun & Hconcat & Hsizes & Hfull); [lia | lia |].
  exists rest. by repeat split.
Qed.

Lemma createBatches_loop_stuck {T} (items : list T) (batchSize : Z) :
  (batchSize <= 0)%Z → items ≠ [] →
  ∀ fuel i batches, (i <= 0)%Z →
    RpcClient.createBatches_loop fuel items batchSize i batches = None.
Proof.
  intros Hsize Hitems fuel.
  assert (0 < length items) by (destruct items; [done | cbn; lia]).
  induction fuel as [|fuel IH]; intros i batches Hi; cbn [RpcClient.createBatches_loop];
    (destruct (Z.ltb_spec i (Z.of_nat (length items))); [|lia]); [done|].
  apply IH. lia.
Qed.

(** X23.  With a batch size of 0 or less and at least one item, the loop
    of [createBatches] never ends: the index does not advance past the
    first item, so no number of rounds returns. *)
Theorem createBatches_diverges {T} (items : list T) (batchSize : Z) :
  (batchSize <= 0)%Z → items ≠ [] →
  ∀ fuel, RpcClient.createBatches fuel items batchSize = None.
Proof.
  intros Hsize Hitems fuel.
  by apply createBatches_loop_stuck.
Qed.

Section Activities.
Variable getSignaturesForAddress : string → option (list Z).

Local Abbreviation getAccountLastActivity :=
  (RpcClient.getAccountLastActivity getSignaturesForAddress).
Local Abbreviation recordBatch := (RpcClient.recordBatch getSignaturesForAddress).

Lemma recordBatch_lookup (m : gmap string (option Z)) batch k :
  recordBatch m batch !! k =
    if decide (k ∈ batch) then Some (getAccountLastActivity k) else m !! k.
Proof.
  unfold RpcClient.recordBatch. revert m.
  induction batch as [|x batch IH]; intros m; [done|].
  cbn [foldl]. rewrite IH.
  destruct (decide (k ∈ batch)) as [Hin|Hnotin].
  - rewrite decide_True by (by right). done.
  - destruct (decide (k = x)) as [->|Hne].
    + rewrite decide_True by (by left). by rewrite lookup_insert_eq.
    + rewrite decide_False by (rewrite elem_of_cons; tauto).
      by rewrite lookup_insert_ne.
Qed.

Lemma recordBatch_concat (m : gmap string (option Z)) batches :
  foldl recordBatch m batches = recordBatch m (concat batches).
Proof.
  revert m. induction batches as [|b batches IH]; intros m; [done|].
  cbn [foldl concat]. rewrite IH. unfold RpcClient.recordBatch.
  by rewrite foldl_app.
Qed.

Lemma batchGetAccountActivities_run (fuel : nat) (pubkeys : list string)
    (maxAccountsPerBatch : Z) :
  (1 <= maxAccountsPerBatch)%Z → length pubkeys ≤ fuel →
  RpcClient.batchGetAccountActivities getSignaturesForAddress fuel pubkeys
    maxAccountsPerBatch = Some (recordBatch ∅ pubkeys).
Proof.
  intros Hsize Hfuel. unfold RpcClient.batchGetAccountActivities.
  destruct (createBatches_loop_spec pubkeys maxAccountsPerBatch Hsize fuel 0 [])
    as (batches & Hrun & Hconcat & _); [lia | lia |].
  unfold RpcClient.createBatches. rewrite Hrun. cbn [app].
  by rewrite recordBatch_concat, Hconcat.
Qed.

Lemma enrichAccountsWithActivity_recorded (accounts : list PDAccountInfo) :
  ProgramScanner.enrichAccountsWithActivity accounts
    (recordBatch ∅ (pubkey <$> accounts)) =
  (fun a => Props.with_activity a (getAccountLastActivity (pubkey a))) <$> accounts.
Proof.
  unfold ProgramScanner.enrichAccountsWithActivity, Props.with_activity.
  apply (list_fmap_ext _ _ accounts). intros i a Ha%list_elem_of_lookup_2.
  rewrite recordBatch_lookup, decide_True by (by apply list_elem_of_fmap_2). done.
Qed.

(** X24.  For a batch size of at least 1 the activity lookup of a scan
    ends, and the batching does not show in its result: the map holds
    exactly the given addresses, each with the slot of its latest
    signature, or with no slot when the address has no signature or the
    request failed.  Enriching the accounts from this map sets the last
    write slot of each account to that value and keeps its other
    fields. *)
Theorem enrichAccountsWithActivity_spec (fuel : nat) (accounts : list PDAccountInfo)
    (maxAccountsPerBatch : Z) :
  (1 <= maxAccountsPerBatch)%Z → length accounts ≤ fuel →
  ∃ activities,
    RpcClient.batchGetAccountActivities getSignaturesForAddress fuel
      (pubkey <$> accounts) maxAccountsPerBatch = Some activities ∧
    (∀ k, activities !! k =
          if decide (k ∈ pubkey <$> accounts)
          then Some (getAccountLastActivity k) else None) ∧
    ProgramScanner.enrichAccountsWithActivity accounts activities =
      (fun a => Props.with_activity a (getAccountLastActivity (pubkey a))) <$> accounts.
Proof.
  intros Hsize Hfuel.
  exists (recordBatch ∅ (pubkey <$> accounts)).
  split; [apply batchGetAccountActivities_run; [done | by rewrite length_fmap]|].
  split; [|apply enrichAccountsWithActivity_recorded].
  intros k. rewrite recordBatch_lookup. by rewrite lookup_empty.
Qed.

(** X25.  What a scan counts as dormant, read from the signature
    requests: an account is counted exactly when the request for its
    address failed, found no signature, found a latest signature at slot
    0, or found one older than the inactivity threshold.  A failed
    request is thus counted like a silent account. *)
Theorem dormantAccounts_by_lookup {num} `{JsNumber num} (d : GhostDetector num)
    (fuel : nat) (accounts : list PDAccountInfo) (maxAccountsPerBatch minRent : Z) :
  (1 <= maxAccountsPerBatch)%Z → length accounts ≤ fuel →
  ∃ activities,
    RpcClient.batchGetAccountActivities getSignaturesForAddress fuel
      (pubkey <$> accounts) maxAccountsPerBatch = Some activities ∧
    dormantAccounts
      (generateSummary
         (analyzeAccounts d
            (ProgramScanner.enrichAccountsWithActivity accounts activities) minRent)) =
      length (filter (Props.dormant_by_lookup d getSignaturesForAddress) accounts).
Proof.
  intros Hsize Hfuel.
  exists (recordBatch ∅ (pubkey <$> accounts)).
  split; [apply batchGetAccountActivities_run; [done | by rewrite length_fmap]|].
  rewrite enrichAccountsWithActivity_recorded.
  cbn [generateSummary dormantAccounts]. unfold analyzeAccounts.
  induction accounts as [|a accounts IH]; [done|].
  rewrite fmap_cons. cbn [map]. rewrite !filter_cons.
  assert (Hiff : hasInactivityIndicator
                   (generateRiskProfile d
                      (Props.with_activity a (getAccountLastActivity (pubkey a))) minRent) ↔
                 Props.dormant_by_lookup d getSignaturesForAddress a).
  { rewrite hasInactivityIndicator_iff.
    unfold Props.unknown_or_stale, Props.dormant_by_lookup, lastWriteSlot_falsy,
      Props.with_activity, RpcClient.getAccountLastActivity.
    cbn [lastWriteSlot currentSlot inactiveSlotThreshold].
    destruct (getSignaturesForAddress (pubkey a)) as [[|slot ?]|]; cbn [default];
      [tauto | | tauto].
    destruct (Z.eqb_spec slot 0); intuition (congruence || lia). }
  repeat case_decide; cbn [length]; try tauto; (rewrite IH; [done | cbn in Hfuel; lia]).
Qed.
End Activities.

(** ** The accounts shown to the user *)

(** Sorting with a comparator [(a, b) => key(b) - key(a)] gives the keys
    in descending order. *)
Lemma sort_insert_descending {A} (key : A → Q) x l :
  StronglySorted (fun a b => (key b <= key a)%Q) l →
  StronglySorted (fun a b => (key b <= key a)%Q)
                 (GraphBuilder.sort_insert (fun a b => (key b - key a)%Q) x l).
Proof.
  induction 1 as [|y l Hsorted IH Hy]; cbn [GraphBuilder.sort_insert].
  - repeat constructor.
  - destruct (Qle_bool (key y - key x) 0) eqn:Hcmp.
    + apply Qle_bool_iff in Hcmp.
      constructor; [by constructor|]. constructor; [lra|].
      eapply Forall_impl; [exact Hy|]. cbn. intros z Hz. lra.
    + assert (Hlt : (key x < key y)%Q).
      { apply Qnot_le_lt. intros Hle.
        assert (Htrue : Qle_bool (key y - key x) 0 = true)
          by (apply Qle_bool_iff; lra).
        congruence. }
      constructor; [done|].
      rewrite (sort_insert_perm (fun a b => (key b - key a)%Q) x l).
      constructor; [lra | done].
Qed.

Lemma Array_sort_descending {A} (key : A → Q) l :
  StronglySorted (fun a b => (key b <= key a)%Q)
                 (GraphBuilder.Array_sort (fun a b => (key b - key a)%Q) l).
Proof.
  induction l as [|x l IH]; cbn [GraphBuilder.Array_sort foldr]; [constructor|].
  by apply sort_insert_descending.
Qed.

(** X26.  The accounts listed at the end of a scan (and on the
    dashboard) are the High and Critical profiles with the highest
    confidence scores: as many as the summary counts as high-risk, but
    five at most, each one a High or Critical profile of the scan, in
    descending order of score; no High or Critical profile left out
    outscores a listed one. *)
Theorem topRisks_spec (accounts : list (AccountRiskProfile Q)) :
  length (ScanCommand.topRisks accounts) =
    5 `min` highRiskAccounts (generateSummary accounts) ∧
  ScanCommand.topRisks accounts ⊆+ accounts ∧
  Forall isHighRisk (ScanCommand.topRisks accounts) ∧
  StronglySorted (fun a b => (confidenceScore b <= confidenceScore a)%Q)
                 (ScanCommand.topRisks accounts) ∧
  (∀ a, a ∈ accounts → isHighRisk a → a ∉ ScanCommand.topRisks accounts →
        Forall (fun t => (confidenceScore a <= confidenceScore t)%Q)
               (ScanCommand.topRisks accounts)).
Proof.
  unfold ScanCommand.topRisks, ScanCommand.compareByScore.
  set (sorted := GraphBuilder.Array_sort
                   (fun a b => (confidenceScore b - confidenceScore a)%Q)
                   (filter isHighRisk accounts)).
  assert (Hperm : sorted ≡ₚ filter isHighRisk accounts) by apply Array_sort_perm.
  assert (Hsorted : StronglySorted
                      (fun a b => (confidenceScore b <= confidenceScore a)%Q) sorted)
    by apply (Array_sort_descending confidenceScore).
  assert (Hslice : GraphBuilder.Array_slice0 sorted 5 = take 5 sorted).
  { unfold GraphBuilder.Array_slice0. cbv zeta.
    destruct (Z.ltb_spec 5 0); [lia|].
    destruct (Z.le_gt_cases 5 (Z.of_nat (length sorted))).
    - by rewrite Z.min_l by lia.
    - rewrite Z.min_r by lia. rewrite !take_ge by lia. done. }
  rewrite Hslice. split; [|split; [|split; [|split]]].
  - rewrite length_take. cbn [generateSummary highRiskAccounts].
    by rewrite Hperm.
  - transitivity sorted; [apply sublist_submseteq, sublist_take|].
    rewrite Hperm. apply sublist_submseteq, sublist_filter.
  - apply Forall_forall. intros t Ht%(subseteq_take 5 sorted).
    rewrite Hperm in Ht. by apply list_elem_of_filter in Ht as [? _].
  - rewrite <- (take_drop 5 sorted) in Hsorted.
    by apply StronglySorted_app_1_l in Hsorted.
  - intros a Ha Hhigh Hout. apply Forall_forall. intros t Ht.
    assert (Hin : a ∈ sorted) by (rewrite Hperm; by apply list_elem_of_filter).
    rewrite <- (take_drop 5 sorted) in Hin, Hsorted.
    apply elem_of_app in Hin as [Hin|Hin]; [done|].
    exact (StronglySorted_app_1_elem_of _ _ _ t a Hsorted Ht Hin).
Qed.

Lemma riskOrder_index (l : RiskLevel) :
  ReportGenerator.Array_indexOf l ReportGenerator.riskOrder =
    Z.of_nat (Props.level_rank l).
Proof. by destruct l. Qed.

(** X27.  The JSON report keeps the profiles in their order and drops
    those below the minimum level, in the order Low, Medium, High,
    Critical: no level is missing from the list searched, so nothing is
    dropped by accident.  With the minimum Low, the default of the
    report command, all profiles are kept, and raising the minimum only
    removes profiles. *)
Theorem filteredAccounts_spec {num} (accounts : list (AccountRiskProfile num)) :
  (∀ minimum,
     ReportGenerator.filteredAccounts accounts (Some minimum) =
       filter (fun a => Props.level_rank minimum ≤ Props.level_rank (riskLevel a))
              accounts) ∧
  ReportGenerator.filteredAccounts accounts (Some Low) = accounts ∧
  (∀ minimum minimum',
     Props.level_le minimum minimum' →
     sublist (ReportGenerator.filteredAccounts accounts (Some minimum'))
             (ReportGenerator.filteredAccounts accounts (Some minimum))).
Proof.
  assert (Hfilter : ∀ minimum,
     ReportGenerator.filteredAccounts accounts (Some minimum) =
       filter (fun a => Props.level_rank minimum ≤ Props.level_rank (riskLevel a))
              accounts).
  { intros minimum. unfold ReportGenerator.filteredAccounts. cbv zeta.
    apply list_filter_iff. intros a. rewrite !riskOrder_index. lia. }
  split; [exact Hfilter|]. split.
  - rewrite Hfilter. cbn [Props.level_rank]. clear Hfilter.
    induction accounts as [|a accounts IH]; [done|].
    rewrite filter_cons, decide_True by lia. by f_equal.
  - intros minimum minimum' Hle. rewrite !Hfilter. unfold Props.level_le in Hle.
    clear Hfilter. induction accounts as [|a accounts IH]; [done|].
    rewrite !filter_cons. repeat case_decide; try lia;
      first [done | by apply sublist_skip | by apply sublist_cons].
Qed.

(** X28.  The two findings sections of the Markdown report list, between
    them, exactly the profiles the summary counts as high-risk, and no
    profile appears in both. *)
Theorem findings_match_summary {num} `{JsNumber num}
    (accounts : list (AccountRiskProfile num)) :
  ReportGenerator.criticalAccounts accounts ++ ReportGenerator.highRiskFindings accounts
    ≡ₚ filter isHighRisk accounts ∧
  length (ReportGenerator.criticalAccounts accounts) +
    length (ReportGenerator.highRiskFindings accounts) =
    highRiskAccounts (generateSummary accounts) ∧
  (∀ a, a ∈ ReportGenerator.criticalAccounts accounts →
        a ∉ ReportGenerator.highRiskFindings accounts).
Proof.
  assert (Hperm : ReportGenerator.criticalAccounts accounts ++
                  ReportGenerator.highRiskFindings accounts
                  ≡ₚ filter isHighRisk accounts).
  { unfold ReportGenerator.criticalAccounts, ReportGenerator.highRiskFindings.
    induction accounts as [|a accounts IH]; [done|].
    rewrite !filter_cons. unfold isHighRisk in *.
    repeat case_decide; try (intuition congruence).
    - cbn [app]. by rewrite IH.
    - rewrite <- Permutation_middle. by rewrite IH. }
  split; [exact Hperm|]. split.
  - cbn [generateSummary highRiskAccounts]. by rewrite <- Hperm, length_app.
  - unfold ReportGenerator.criticalAccounts, ReportGenerator.highRiskFindings.
    intros a [Hc _]%list_elem_of_filter [Hh _]%list_elem_of_filter. congruence.
Qed.

(** ** The exported graph *)

Lemma String_length_append (s1 s2 : string) :
  String.length (s1 +:+ s2) = String.length s1 + String.length s2.
Proof. induction s1 as [|c s1 IH]; simpl; [done | by f_equal]. Qed.

Lemma String_length_substring (n m : nat) (s : string) :
  String.length (String.substring n m s) = m `min` (String.length s - n).
Proof.
  revert n m. induction s as [|c s IH]; intros [|n] [|m]; simpl; try done;
    rewrite IH; lia.
Qed.

(** A label is the address itself when it has at most 16 characters,
    and 15 characters long otherwise. *)
Lemma truncatePubkey_length (pubkey : string) :
  String.length (GraphBuilder.truncatePubkey pubkey) =
    if Nat.leb (String.length pubkey) 16 then String.length pubkey else 15.
Proof.
  unfold GraphBuilder.truncatePubkey.
  destruct (Nat.leb_spec (String.length pubkey) 16) as [Hle|Hgt]; [done|].
  unfold GraphBuilder.String_slice0, GraphBuilder.String_last. cbv zeta.
  destruct (Z.ltb_spec 8 0); [lia|].
  rewrite !String_length_append, !String_length_substring. cbn [String.length]. lia.
Qed.

Lemma confidenceScore_range (d : GhostDetector Q) (a : PDAccountInfo) (minRent : Z) :
  Props.nonneg_weights (weights d) →
  (0 <= confidenceScore (generateRiskProfile d a minRent) <= 100)%Q.
Proof.
  intros (Hi & _ & Ho & Hr). unfold generateRiskProfile; simpl. q_consts. split.
  - apply Q.min_glb; [lra|].
    repeat apply pushIndicator_nonneg; simpl;
      eauto using checkInactivity_nonneg, checkOrphanedPDA_nonneg,
                  checkRentRecoverable_nonneg, Qle_refl.
  - apply Q.le_min_l.
Qed.

Lemma scoreOf_range (n : AccountGraphNode) :
  (∀ p, riskProfile n = Some p → (0 <= confidenceScore p <= 100)%Q) →
  (0 <= GraphBuilder.scoreOf n <= 100)%Q.
Proof.
  intros Hp. unfold GraphBuilder.scoreOf.
  destruct (riskProfile n) as [p|]; [|lra].
  specialize (Hp p eq_refl). destruct (nfalsy (confidenceScore p)); lra.
Qed.

Lemma getNodeSize_range (n : AccountGraphNode) :
  (0 <= GraphBuilder.scoreOf n <= 100)%Q →
  (10 <= GraphBuilder.getNodeSize n <= 30)%Q.
Proof.
  intros [Hlo Hhi]. unfold GraphBuilder.getNodeSize.
  case_bool_decide; [lra|].
  assert (0 <= GraphBuilder.scoreOf n / 100)%Q by (apply Qle_shift_div_l; lra).
  assert (GraphBuilder.scoreOf n / 100 <= 1)%Q by (apply Qle_shift_div_r; lra).
  lra.
Qed.

Lemma buildNodes_profile (d : GhostDetector Q) accounts minRent programId n p :
  n ∈ GraphBuilder.buildNodes programId accounts (analyzeAccounts d accounts minRent) →
  riskProfile n = Some p →
  ∃ a, a ∈ accounts ∧ p = generateRiskProfile d a minRent.
Proof.
  unfold GraphBuilder.buildNodes. cbv zeta.
  intros [->|Hn]%elem_of_cons; [done|].
  apply list_elem_of_In, in_map_iff in Hn as (a & <- & Ha). cbn [riskProfile].
  rewrite riskMapOf_lookup, last_profile_of_accounts.
  destruct (last (filter _ accounts)) as [a'|] eqn:Hlast; [|done].
  intros [= <-]. exists a'. split; [|done].
  apply last_Some in Hlast as [l' Hl'].
  assert (Hin : a' ∈ filter (fun b => pubkey b = pubkey a) accounts)
    by (rewrite Hl'; apply elem_of_app; right; by left).
  by apply list_elem_of_filter in Hin as [_ ?].
Qed.

Lemma filterGraphForVisualization_nodes_elem G C b G' n :
  GraphBuilder.filterGraphForVisualization G C b = Some G' →
  n ∈ nodes G' → n ∈ nodes G.
Proof.
  intros Hrun.
  destruct (Z.le_gt_cases (Z.of_nat (length (nodes G))) C) as [Hle|Hgt].
  - unfold GraphBuilder.filterGraphForVisualization in Hrun.
    destruct (Z.leb_spec (Z.of_nat (length (nodes G))) C); [|lia].
    by injection Hrun as <-.
  - destruct (filterGraphForVisualization_cut G C b G' Hrun Hgt)
      as (p & others & Hfind & Hperm & -> & _).
    intros [->|Hn]%elem_of_cons.
    + apply find_some in Hfind as [Hin _]. by apply list_elem_of_In.
    + eapply elem_of_sublist in Hn; [|apply Array_slice0_sublist].
      rewrite Hperm in Hn. by apply list_elem_of_filter in Hn as [_ ?].
Qed.

(** X29.  What is exported from the graph of a scan with non-negative
    weights: one entry per node and per edge, in order; every node is
    drawn with a size between 10 and 30 and a label of at most 16
    characters; no edge is dashed, and all edges have the colour of an
    active edge. *)
Theorem exportForVisualization_of_scan
    (cfg : ScanSettings) (currentSlot : Z) (accounts : list PDAccountInfo)
    (graphNow resultNow : Z) (r : ScanResult) :
  Props.nonneg_weights (cfg_weights cfg) →
  ScanCommand.buildScanResult cfg currentSlot accounts graphNow resultNow = Some r →
  vis_id <$> (GraphBuilder.exportForVisualization (sr_graph r)).1 =
    node_id <$> nodes (sr_graph r) ∧
  (fun e => (vis_from e, vis_to e)) <$> (GraphBuilder.exportForVisualization (sr_graph r)).2 =
    (fun e => (source e, target e)) <$> edges (sr_graph r) ∧
  Forall (fun v => (10 <= vis_size v <= 30)%Q ∧ String.length (vis_label v) ≤ 16)
         (GraphBuilder.exportForVisualization (sr_graph r)).1 ∧
  Forall (fun e => vis_dashes e = false ∧ vis_edge_color e = "#888")
         (GraphBuilder.exportForVisualization (sr_graph r)).2.
Proof.
  intros Hweights Hrun.
  unfold ScanCommand.buildScanResult, GraphBuilder.filterGraphForVisualization_cap in Hrun.
  cbv zeta in Hrun.
  set (d := {| currentSlot := currentSlot;
               inactiveSlotThreshold := cfg_inactiveSlots cfg;
               weights := cfg_weights cfg;
               thresholds := cfg_thresholds cfg |}) in Hrun.
  destruct (GraphBuilder.filterGraphForVisualization _ _ _) as [G'|] eqn:Hfilter;
    [|done].
  injection Hrun as <-. cbn [sr_graph].
  unfold GraphBuilder.exportForVisualization. cbn [fst snd].
  split; [|split; [|split]].
  - change (map ?f ?l) with (f <$> l). rewrite <- list_fmap_compose.
    by apply list_fmap_ext.
  - change (map ?f ?l) with (f <$> l). rewrite <- list_fmap_compose.
    by apply list_fmap_ext.
  - apply Forall_forall. intros v Hv.
    apply list_elem_of_In, in_map_iff in Hv as (n & <- & Hn%list_elem_of_In).
    cbn [vis_size vis_label]. split.
    + apply getNodeSize_range, scoreOf_range. intros p Hp.
      eapply filterGraphForVisualization_nodes_elem in Hn; [|exact Hfilter].
      destruct (buildNodes_profile d accounts 890880 (cfg_programId cfg) n p Hn Hp)
        as (a & _ & ->).
      by apply confidenceScore_range.
    + rewrite truncatePubkey_length.
      destruct (Nat.leb_spec (String.length (node_pubkey n)) 16); lia.
  - apply Forall_forall. intros v Hv.
    apply list_elem_of_In, in_map_iff in Hv as (e & <- & He%list_elem_of_In).
    cbn [vis_dashes vis_edge_color].
    apply filterGraphForVisualization_edges_sublist in Hfilter as Hedges.
    eapply elem_of_sublist in He; [|exact Hedges].
    apply buildEdges_active in He. by rewrite He.
Qed.

(** X30.  Shortening to a length of at least 3 gives a string of at most
    that length: the string itself, or its first [length - 3] characters
    followed by three dots. *)
Theorem truncate_length (str : string) (length : Z) :
  (3 <= length)%Z →
  (Z.of_nat (String.length (ReportGenerator.truncate str length)) <= length)%Z ∧
  (ReportGenerator.truncate str length = str ∨
   ReportGenerator.truncate str length =
     String.substring 0 (Z.to_nat (length - 3)) str +:+ "...").
Proof.
  intros Hlen. unfold ReportGenerator.truncate.
  destruct (Z.leb_spec (Z.of_nat (String.length str)) length) as [Hle|Hgt].
  - split; [done | by left].
  - unfold GraphBuilder.String_slice0. cbv zeta.
    destruct (Z.ltb_spec (length - 3) 0); [lia|].
    rewrite Z.min_l by lia. split; [|by right].
    rewrite String_length_append, String_length_substring. cbn [String.length]. lia.
Qed.

Lemma createBatches_partition_witness :
  ∃ batches,
    RpcClient.createBatches 5 ["A"; "B"; "C"; "D"; "E"] 2 = Some batches ∧
    concat batches = ["A"; "B"; "C"; "D"; "E"] ∧
    Forall (fun b => (1 <= Z.of_nat (length b) <= 2)%Z) batches ∧
    ∀ k b, batches !! k = Some b → S k < length batches →
           Z.of_nat (length b) = 2%Z.
Proof.
  apply (createBatches_partition 5 ["A"; "B"; "C"; "D"; "E"] 2); [lia | cbn; lia].
Defined.

Lemma createBatches_diverges_witness :
  RpcClient.createBatches 1000 ["A"; "B"] 0 = None.
Proof.
  apply (createBatches_diverges ["A"; "B"] 0); [lia | done].
Defined.

Lemma enrichAccountsWithActivity_spec_witness :
  ∃ activities,
    RpcClient.batchGetAccountActivities Sample.signaturesOf 3
      (pubkey <$> Sample.programAccounts) 2 = Some activities ∧
    (∀ k, activities !! k =
          if decide (k ∈ pubkey <$> Sample.programAccounts)
          then Some (RpcClient.getAccountLastActivity Sample.signaturesOf k)
          else None) ∧
    ProgramScanner.enrichAccountsWithActivity Sample.programAccounts activities =
      (fun a => Props.with_activity a
                  (RpcClient.getAccountLastActivity Sample.signaturesOf (pubkey a)))
        <$> Sample.programAccounts.
Proof.
  apply (enrichAccountsWithActivity_spec Sample.signaturesOf 3 Sample.programAccounts 2);
    [lia | cbn; lia].
Defined.

Lemma dormantAccounts_by_lookup_witness :
  ∃ activities,
    RpcClient.batchGetAccountActivities Sample.signaturesOf 3
      (pubkey <$> Sample.programAccounts) 2 = Some activities ∧
    dormantAccounts
      (generateSummary
         (analyzeAccounts (Scenario.detectorQ 1000000 500000 (1 # 4) (1 # 4))
            (ProgramScanner.enrichAccountsWithActivity Sample.programAccounts activities)
            890880)) =
      length (filter (Props.dormant_by_lookup
                        (Scenario.detectorQ 1000000 500000 (1 # 4) (1 # 4))
                        Sample.signaturesOf) Sample.programAccounts).
Proof.
  apply (dormantAccounts_by_lookup Sample.signaturesOf
           (Scenario.detectorQ 1000000 500000 (1 # 4) (1 # 4))
           3 Sample.programAccounts 2 890880); [lia | cbn; lia].
Defined.

Lemma exportForVisualization_of_scan_witness :
  ∃ r,
    ScanCommand.buildScanResult Sample.settings 1000000 Sample.programAccounts 0 0
      = Some r ∧
    vis_id <$> (GraphBuilder.exportForVisualization (sr_graph r)).1 =
      node_id <$> nodes (sr_graph r) ∧
    (fun e => (vis_from e, vis_to e)) <$>
        (GraphBuilder.exportForVisualization (sr_graph r)).2 =
      (fun e => (source e, target e)) <$> edges (sr_graph r) ∧
    Forall (fun v => (10 <= vis_size v <= 30)%Q ∧ String.length (vis_label v) ≤ 16)
           (GraphBuilder.exportForVisualization (sr_graph r)).1 ∧
    Forall (fun e => vis_dashes e = false ∧ vis_edge_color e = "#888")
           (GraphBuilder.exportForVisualization (sr_graph r)).2.
Proof.
  eexists. split; [vm_compute; reflexivity|].
  apply (exportForVisualization_of_scan Sample.settings 1000000
           Sample.programAccounts 0 0).
  - unfold Props.nonneg_weights. cbn. repeat split; lra.
  - vm_compute; reflexivity.
Defined.

Lemma truncate_length_witness :
  (Z.of_nat (String.length
     (ReportGenerator.truncate "BPFLoaderUpgradeab1e11111111111111111111111" 16)) <= 16)%Z ∧
  (ReportGenerator.truncate "BPFLoaderUpgradeab1e11111111111111111111111" 16 =
     "BPFLoaderUpgradeab1e11111111111111111111111" ∨
   ReportGenerator.truncate "BPFLoaderUpgradeab1e11111111111111111111111" 16 =
     String.substring 0 (Z.to_nat (16 - 3))
       "BPFLoaderUpgradeab1e11111111111111111111111" +:+ "...").
Proof.
  apply (truncate_length "BPFLoaderUpgradeab1e11111111111111111111111" 16). lia.
Defined.
